(** * CityScene: local store, migration, access gates and metrics

    A shallow embedding of the data-management slice of [src/CityScene.jsx]:
    the JSON-backed key-value store ([loadData], [saveData]), the analytics
    log ([useAnalytics]), the start-up migration ([migrateLocalStorage]), the
    visibility gates of [LandingOverlay], [BrandPreviewPanel] and
    [SceneContent], the metric aggregations of [UnifiedControlPanel],
    [BrandPreviewPanel] and [DashboardPanel], the audit log ([logAdmin],
    [handleSave]), the accounts ([handleLoginAttempt], [registerUser],
    [handleSignup], the handlers of [UserManagementModal] and of
    [ChangeCredentialsModal]), the leads of [BrandPartnerModal] and the
    session that [SceneContent] keeps across a reload.

    JavaScript data is embedded as a small universe of values; objects keep
    their properties in insertion order, since [JSON.stringify] and the
    flag comparison of the migration observe that order. *)

From Stdlib Require Import ZArith NArith String Ascii List Bool Lia.
From Stdlib Require Import DecimalString DecimalN SpecFloat.
From stdpp Require Import base option list gmap strings.

Import ListNotations.
Set Warnings "-register-all".
Local Open Scope string_scope.

(** ** JavaScript values *)

Module Js.

(** Numbers are the integers: every number the modelled code stores is a
    counter or an identifier.  The model is exact for the safe integers
    (absolute value below 2^53); the click-through rates, which divide, are
    computed on binary64 further down.  Strings are sequences of code units
    below 256. *)
Inductive value : Type :=
| VUndefined
| VNull
| VBool (b : bool)
| VNum (n : Z)
| VStr (s : string)
| VArr (xs : list value)
| VObj (ps : list (string * value)).

Definition obj : Type := list (string * value).

(** [ToBoolean]. *)
Definition truthy (v : value) : bool :=
  match v with
  | VUndefined | VNull => false
  | VBool b => b
  | VNum n => negb (n =? 0)%Z
  | VStr s => negb (s =? "")%string
  | VArr _ | VObj _ => true
  end.

(** [a || b] and [a && b] return one of their operands. *)
Definition js_or (a b : value) : value := if truthy a then a else b.
Definition js_and (a b : value) : value := if truthy a then b else a.

(** [a === b].  Two arrays or objects are equal only when they are the same
    reference; the operands compared by this program come out of different
    object graphs (a scene record and a session record), so on arrays and
    objects the comparison is [false]. *)
Definition strict_eq (a b : value) : bool :=
  match a, b with
  | VUndefined, VUndefined => true
  | VNull, VNull => true
  | VBool x, VBool y => Bool.eqb x y
  | VNum x, VNum y => (x =? y)%Z
  | VStr x, VStr y => (x =? y)%string
  | _, _ => false
  end.

Fixpoint assoc (k : string) (ps : obj) : option value :=
  match ps with
  | [] => None
  | (k', v) :: r => if (k =? k')%string then Some v else assoc k r
  end.

Definition keys (ps : obj) : list string := map fst ps.

(** [o.k] for a named data property [k]: [None] is the [TypeError] raised on
    [undefined] and [null]; a missing property reads as [undefined]. *)
Definition get (v : value) (k : string) : option value :=
  match v with
  | VUndefined | VNull => None
  | VObj ps => Some (default VUndefined (assoc k ps))
  | _ => Some VUndefined
  end.

(** [o?.k]. *)
Definition get_opt (v : value) (k : string) : value :=
  match v with
  | VObj ps => default VUndefined (assoc k ps)
  | _ => VUndefined
  end.

(** [o[k] = v] on an ordinary object: an existing property keeps its place,
    a new one goes last.  (JavaScript lists canonical array-index keys before
    the others; the flag names and record fields of this program are not
    such keys, and where a spread meets them the values per key are the
    same.) *)
Fixpoint obj_set (k : string) (v : value) (ps : obj) : obj :=
  match ps with
  | [] => [(k, v)]
  | (k', v') :: r =>
      if (k =? k')%string then (k, v) :: r else (k', v') :: obj_set k v r
  end.

(** [{ ...target, ...src }] once [target] has been copied: the properties of
    [src] are defined one by one, in order. *)
Definition assign (target src : obj) : obj :=
  fold_left (fun acc p => obj_set (fst p) (snd p) acc) src target.

(** The own enumerable properties a spread copies.  Primitives other than
    strings have none. *)
Definition index_key (i : nat) : string :=
  NilZero.string_of_uint (N.to_uint (N.of_nat i)).

Fixpoint indexed (i : nat) (xs : list value) : obj :=
  match xs with
  | [] => []
  | x :: r => (index_key i, x) :: indexed (S i) r
  end.

Fixpoint chars (s : string) : list value :=
  match s with
  | EmptyString => []
  | String c r => VStr (String c EmptyString) :: chars r
  end.

Definition own_props (v : value) : obj :=
  match v with
  | VObj ps => ps
  | VArr xs => indexed 0 xs
  | VStr s => indexed 0 (chars s)
  | _ => []
  end.

(** [{ ...a, ...b }]. *)
Definition spread2 (a b : value) : obj :=
  assign (assign [] (own_props a)) (own_props b).

(** Objects of the program never hold one key twice. *)
Fixpoint nodupb (ks : list string) : bool :=
  match ks with
  | [] => true
  | k :: r => negb (existsb (String.eqb k) r) && nodupb r
  end.

Fixpoint wf (v : value) : bool :=
  match v with
  | VArr xs => forallb wf xs
  | VObj ps => nodupb (map fst ps) && forallb (fun p => wf (snd p)) ps
  | _ => true
  end.

(** No [undefined] anywhere inside: what JSON can carry. *)
Fixpoint defined (v : value) : bool :=
  match v with
  | VUndefined => false
  | VArr xs => forallb defined xs
  | VObj ps => forallb (fun p => defined (snd p)) ps
  | _ => true
  end.



End Js.

(** ** JSON text *)

Module Json.
Import Js.

Definition dquote : ascii := "034"%char.
Definition bslash : ascii := "092"%char.

Definition is_ws (c : ascii) : bool :=
  (c =? " ")%char || (c =? "009")%char || (c =? "010")%char || (c =? "013")%char.

Definition is_digit (c : ascii) : bool :=
  let n := nat_of_ascii c in (48 <=? n)%nat && (n <=? 57)%nat.

Definition hex_char (n : nat) : ascii :=
  if (n <? 10)%nat then ascii_of_nat (48 + n) else ascii_of_nat (87 + n).

Definition hex_val (c : ascii) : option nat :=
  let n := nat_of_ascii c in
  if (48 <=? n)%nat && (n <=? 57)%nat then Some (n - 48)%nat
  else if (97 <=? n)%nat && (n <=? 102)%nat then Some (n - 87)%nat
  else if (65 <=? n)%nat && (n <=? 70)%nat then Some (n - 55)%nat
  else None.

(** *** [JSON.stringify] *)

(** [QuoteJSONString], one code unit. *)
Definition escape (c : ascii) : string :=
  let n := nat_of_ascii c in
  if (c =? dquote)%char then String bslash (String dquote "")
  else if (c =? bslash)%char then String bslash (String bslash "")
  else if (n =? 8)%nat then String bslash "b"
  else if (n =? 12)%nat then String bslash "f"
  else if (n =? 10)%nat then String bslash "n"
  else if (n =? 13)%nat then String bslash "r"
  else if (n =? 9)%nat then String bslash "t"
  else if (n <? 32)%nat then
    String bslash (String "u" (String "0" (String "0"
      (String (hex_char (n / 16)) (String (hex_char (n mod 16)) "")))))
  else String c "".

Fixpoint escape_all (s : string) : string :=
  match s with
  | EmptyString => ""
  | String c r => escape c ++ escape_all r
  end.

Definition quote (s : string) : string :=
  String dquote (escape_all s ++ String dquote "").

Definition print_Z (n : Z) : string :=
  if (n <? 0)%Z then String "-" (NilZero.string_of_uint (N.to_uint (Z.abs_N n)))
  else NilZero.string_of_uint (N.to_uint (Z.abs_N n)).

Definition is_undefined (v : value) : bool :=
  match v with VUndefined => true | _ => false end.

(** [SerializeJSONProperty] treats [undefined] in two ways before any text
    is produced: an array element becomes [null], an object member is left
    out. *)
Fixpoint normalize (v : value) : value :=
  match v with
  | VArr xs => VArr (map normalize xs)
  | VObj ps =>
      VObj (flat_map
              (fun p => if is_undefined (snd p) then []
                        else [(fst p, normalize (snd p))]) ps)
  | VUndefined => VNull
  | _ => v
  end.

(** The text of a value without [undefined], no indentation. *)
Fixpoint print (v : value) : string :=
  match v with
  | VUndefined | VNull => "null"
  | VBool true => "true"
  | VBool false => "false"
  | VNum n => print_Z n
  | VStr s => quote s
  | VArr xs => String "[" (String.concat "," (map print xs) ++ "]")
  | VObj ps =>
      String "{"
        (String.concat ","
           (map (fun p => quote (fst p) ++ String ":" (print (snd p))) ps) ++ "}")
  end.

(** [JSON.stringify(v)]: [None] is the result [undefined]. *)
Definition stringify (v : value) : option string :=
  match v with
  | VUndefined => None
  | _ => Some (print (normalize v))
  end.

(** *** [JSON.parse] *)

Fixpoint skip_ws (s : string) : string :=
  match s with
  | String c r => if is_ws c then skip_ws r else s
  | EmptyString => s
  end.

(** The characters of a string literal after its opening quote. *)
Fixpoint parse_chars (s : string) : option (string * string) :=
  match s with
  | EmptyString => None
  | String c r =>
      if (c =? dquote)%char then Some ("", r)
      else if (c =? bslash)%char then
        match r with
        | String e r1 =>
            let simple (x : ascii) :=
              match parse_chars r1 with
              | Some (body, rest) => Some (String x body, rest)
              | None => None
              end in
            if (e =? dquote)%char then simple dquote
            else if (e =? bslash)%char then simple bslash
            else if (e =? "/")%char then simple "/"%char
            else if (e =? "b")%char then simple "008"%char
            else if (e =? "f")%char then simple "012"%char
            else if (e =? "n")%char then simple "010"%char
            else if (e =? "r")%char then simple "013"%char
            else if (e =? "t")%char then simple "009"%char
            else if (e =? "u")%char then
              match r1 with
              | String h1 (String h2 (String h3 (String h4 r2))) =>
                  match hex_val h1, hex_val h2, hex_val h3, hex_val h4 with
                  | Some a, Some b, Some c', Some d =>
                      if (a =? 0)%nat && (b =? 0)%nat then
                        match parse_chars r2 with
                        | Some (body, rest) =>
                            Some (String (ascii_of_nat (16 * c' + d)) body, rest)
                        | None => None
                        end
                      else None
                  | _, _, _, _ => None
                  end
              | _ => None
              end
            else None
        | EmptyString => None
        end
      else if (nat_of_ascii c <? 32)%nat then None
      else
        match parse_chars r with
        | Some (body, rest) => Some (String c body, rest)
        | None => None
        end
  end.

Fixpoint parse_digits (s : string) : Decimal.uint * string :=
  match s with
  | String c r =>
      if is_digit c then
        let '(d, rest) := parse_digits r in
        (match (nat_of_ascii c - 48)%nat with
         | 0 => Decimal.D0 d | 1 => Decimal.D1 d | 2 => Decimal.D2 d
         | 3 => Decimal.D3 d | 4 => Decimal.D4 d | 5 => Decimal.D5 d
         | 6 => Decimal.D6 d | 7 => Decimal.D7 d | 8 => Decimal.D8 d
         | _ => Decimal.D9 d
         end, rest)
      else (Decimal.Nil, s)
  | EmptyString => (Decimal.Nil, s)
  end.

(** A fraction or an exponent would follow these characters; the integers
    of the model have neither. *)
Definition continues_number (s : string) : bool :=
  match s with
  | String c _ => (c =? ".")%char || (c =? "e")%char || (c =? "E")%char
  | EmptyString => false
  end.

Definition parse_nat (s : string) : option (N * string) :=
  let '(d, rest) := parse_digits s in
  match d with
  | Decimal.Nil => None
  | Decimal.D0 (Decimal.Nil) =>
      if continues_number rest then None else Some (0%N, rest)
  | Decimal.D0 _ => None
  | _ => if continues_number rest then None else Some (N.of_uint d, rest)
  end.

Definition parse_number (s : string) : option (value * string) :=
  match s with
  | String c r =>
      if (c =? "-")%char then
        match parse_nat r with
        | Some (n, rest) => Some (VNum (- Z.of_N n), rest)
        | None => None
        end
      else
        match parse_nat s with
        | Some (n, rest) => Some (VNum (Z.of_N n), rest)
        | None => None
        end
  | EmptyString => None
  end.

Fixpoint expect (lit s : string) : option string :=
  match lit with
  | EmptyString => Some s
  | String c l =>
      match s with
      | String c' r => if (c =? c')%char then expect l r else None
      | EmptyString => None
      end
  end.

(** Recursive descent; every call spends one unit of [fuel], and
    [parse] below supplies more than the text can use. *)
Fixpoint parse_value (fuel : nat) (s : string) : option (value * string) :=
  match fuel with
  | O => None
  | S f =>
      match skip_ws s with
      | EmptyString => None
      | String c r =>
          if (c =? "n")%char then
            match expect "ull" r with Some r' => Some (VNull, r') | None => None end
          else if (c =? "t")%char then
            match expect "rue" r with Some r' => Some (VBool true, r') | None => None end
          else if (c =? "f")%char then
            match expect "alse" r with Some r' => Some (VBool false, r') | None => None end
          else if (c =? dquote)%char then
            match parse_chars r with
            | Some (str, r') => Some (VStr str, r')
            | None => None
            end
          else if (c =? "[")%char then
            match skip_ws r with
            | String c' r' =>
                if (c' =? "]")%char then Some (VArr [], r')
                else
                  match parse_elements f r with
                  | Some (xs, r'') => Some (VArr xs, r'')
                  | None => None
                  end
            | EmptyString => None
            end
          else if (c =? "{")%char then
            match skip_ws r with
            | String c' r' =>
                if (c' =? "}")%char then Some (VObj [], r')
                else
                  match parse_members f r [] with
                  | Some (ps, r'') => Some (VObj ps, r'')
                  | None => None
                  end
            | EmptyString => None
            end
          else parse_number (String c r)
      end
  end
with parse_elements (fuel : nat) (s : string) : option (list value * string) :=
  match fuel with
  | O => None
  | S f =>
      match parse_value f s with
      | Some (x, r) =>
          match skip_ws r with
          | String c r' =>
              if (c =? ",")%char then
                match parse_elements f r' with
                | Some (xs, r'') => Some (x :: xs, r'')
                | None => None
                end
              else if (c =? "]")%char then Some ([x], r')
              else None
          | EmptyString => None
          end
      | None => None
      end
  end
with parse_members (fuel : nat) (s : string) (acc : obj) : option (obj * string) :=
  match fuel with
  | O => None
  | S f =>
      match skip_ws s with
      | String q r =>
          if (q =? dquote)%char then
            match parse_chars r with
            | Some (k, r1) =>
                match skip_ws r1 with
                | String colon r2 =>
                    if (colon =? ":")%char then
                      match parse_value f r2 with
                      | Some (x, r3) =>
                          match skip_ws r3 with
                          | String c r4 =>
                              if (c =? ",")%char then
                                parse_members f r4 (obj_set k x acc)
                              else if (c =? "}")%char then
                                Some (obj_set k x acc, r4)
                              else None
                          | EmptyString => None
                          end
                      | None => None
                      end
                    else None
                | EmptyString => None
                end
            | None => None
            end
          else None
      | EmptyString => None
      end
  end.

(** [JSON.parse(s)]: [None] is the [SyntaxError]. *)
Definition parse (s : string) : option value :=
  match parse_value (S (String.length s)) s with
  | Some (v, r) =>
      match skip_ws r with
      | EmptyString => Some v
      | String _ _ => None
      end
  | None => None
  end.

(** *** Predicates for the round trip *)

(** The text of one member of an object. *)
Definition member_text (p : string * value) : string :=
  quote (fst p) ++ String ":" (print (snd p)).

(** The calls [parse_value] spends on the text of a value. *)
Fixpoint weight (v : value) : nat :=
  match v with
  | VArr xs => S (list_sum (map (fun x => S (weight x)) xs))
  | VObj ps => S (list_sum (map (fun p => S (weight (snd p))) ps))
  | _ => 1
  end.

(** What may follow a number, and what may follow a value inside an array
    or an object. *)
Definition no_digit (rest : string) : Prop :=
  match rest with String c _ => is_digit c = false | EmptyString => True end.

Definition num_tail (rest : string) : Prop :=
  no_digit rest /\ continues_number rest = false.

Definition tail_ok (rest : string) : Prop :=
  match rest with
  | EmptyString => True
  | String c _ => c = ","%char \/ c = "]"%char \/ c = "}"%char
  end.

(** A text that starts an element or a member: no blank, no closing
    bracket. *)
Definition opens (body : string) : Prop :=
  exists c r, body = String c r /\ is_ws c = false /\
    (c =? "]")%char = false /\ (c =? "}")%char = false.

(** [parse_value] reads the text of [x] back, whatever follows it. *)
Definition parses (x : value) : Prop :=
  forall fuel rest, (weight x <= fuel)%nat -> tail_ok rest ->
    parse_value fuel (print x ++ rest) = Some (x, rest).

(** What [JSON.parse] returns: no [undefined], no key twice. *)
Definition good (v : value) : Prop := defined v = true /\ wf v = true.

Definition good_obj (ps : obj) : Prop :=
  NoDup (keys ps) /\ Forall (fun p => good (snd p)) ps.

End Json.

(** ** [localStorage] *)

Module LocalStorage.

(** The browser keeps a string per key and refuses a write that would take
    the origin over its quota ([QuotaExceededError]).  The size of an entry
    is counted in code units of its key and of its value. *)
Record t : Type := mk { items : gmap string string; quota : N }.

Definition size (s : string) : N := N.of_nat (String.length s).

Definition used (m : gmap string string) : N :=
  map_fold (fun k v n => (size k + size v + n)%N) 0%N m.

Definition getItem (k : string) (st : t) : option string := items st !! k.

(** [None]: the write throws and the store is left as it was. *)
Definition setItem (k v : string) (st : t) : option t :=
  let m := <[k := v]> (items st) in
  if (used m <=? quota st)%N then Some (mk m (quota st)) else None.

Definition removeItem (k : string) (st : t) : t :=
  mk (delete k (items st)) (quota st).

End LocalStorage.

(** ** Binary64 arithmetic and [Number.prototype.toFixed] *)

Module Num.

Definition prec : Z := 53.
Definition emax : Z := 1024.

Definition of_Z (n : Z) : spec_float := binary_normalize prec emax n 0 false.
Definition div : spec_float -> spec_float -> spec_float := SFdiv prec emax.
Definition mul : spec_float -> spec_float -> spec_float := SFmul prec emax.

Definition print_N (n : N) : string := NilZero.string_of_uint (N.to_uint n).

(** The integer [n] for which [n / 10^f] is closest to [m * 2^e], the
    larger one of two: [floor (m * 10^f * 2^e + 1/2)], with the powers of
    two as shifts. *)
Definition scaled (f : N) (m : positive) (e : Z) : N :=
  let p := (N.pos m * 10 ^ f)%N in
  match e with
  | Z0 => p
  | Zpos k => N.shiftl p (N.pos k)
  | Zneg k => N.shiftr (2 * p + N.shiftl 1 (N.pos k)) (N.pos k + 1)
  end.

Fixpoint pad_left (width : nat) (s : string) : string :=
  match width with
  | O => s
  | S w => if (String.length s <=? w)%nat then String "0" (pad_left w s) else s
  end.

(** The digits of [n] with a point before the last [f] of them. *)
Definition with_point (f : N) (n : N) : string :=
  match f with
  | N0 => print_N n
  | _ =>
      let digits := pad_left (S (N.to_nat f)) (print_N n) in
      let k := (String.length digits - N.to_nat f)%nat in
      substring 0 k digits ++ String "." (substring k (N.to_nat f) digits)
  end.

(** [x.toFixed(f)] for the magnitudes below 10^21 that the program reaches. *)
Definition toFixed (f : N) (x : spec_float) : string :=
  match x with
  | S754_nan => "NaN"
  | S754_infinity false => "Infinity"
  | S754_infinity true => "-Infinity"
  | S754_zero _ => with_point f 0
  | S754_finite false m e => with_point f (scaled f m e)
  | S754_finite true m e => String "-" (with_point f (scaled f m e))
  end.

(** [(a / b) * 100] on two counters. *)
Definition ratio100 (a b : nat) : spec_float :=
  mul (div (of_Z (Z.of_nat a)) (of_Z (Z.of_nat b))) (of_Z 100).

(** [((a / b) * 100).toFixed(f)]. *)
Definition percent (f : N) (a b : nat) : string := toFixed f (ratio100 a b).





End Num.

(** ** The application *)

Module App.
Import Js.

(** *** Keys and constants *)

Definition USERS_DB_KEY : string := "VIRTUNOVO_USERS_DB".
Definition MASTER_FLAGS_KEY : string := "VIRTUNOVO_MASTER_FLAGS".
Definition SEASON_KEY : string := "VIRTUNOVO_SEASON".
Definition BRAND_LEADS_KEY : string := "VIRTUNOVO_BRAND_LEADS".
Definition FLIGHTS_KEY : string := "VIRTUNOVO_FLIGHTS".
Definition COMPLIANCE_NOTES_KEY : string := "VIRTUNOVO_COMPLIANCE_NOTES".
Definition KEYS_EVENTS_LOG : string := "VIRTUNOVO_EVENTS_LOG".
Definition KEYS_ANALYTICS : string := "VIRTUNOVO_ANALYTICS".

Definition ROLES_VISITOR : value := VStr "VISITOR".
Definition ACCOUNT_TYPES_GUEST : value := VStr "guest".
Definition ACCOUNT_TYPES_INDIVIDUAL : value := VStr "individual".
Definition ACCOUNT_TYPES_ORGANIZATION : value := VStr "organization".

Definition DEFAULT_MASTER_FLAGS : obj :=
  [ ("maintenanceMode", VBool false);
    ("allowSignups", VBool true);
    ("showChat", VBool true);
    ("showLabels", VBool true);
    ("adminSidebar", VBool true);
    ("showCustomerProgressDrawer", VBool true);
    ("enableAuditLog", VBool true);
    ("enableDashboardKPI", VBool true);
    ("enableBrandMode", VBool true);
    ("enableFlightPlan", VBool true);
    ("enableCreativeChecker", VBool true);
    ("enableLeadsPanel", VBool true);
    ("enableCommandPalette", VBool true);
    ("enableGuidedTour", VBool true);
    ("enableSeasonPass", VBool true);
    ("enableEventDome", VBool true);
    ("enableHoloStage", VBool true);
    ("enableAutoExpoDome", VBool true);
    ("enableBrandCommandCenter", VBool true);
    ("enableLiveBroadcastUI", VBool true);
    ("enableCrowdFX", VBool true);
    ("enablePortals", VBool true);
    ("enableDomeScheduler", VBool true);
    ("enableOneClickExports", VBool true);
    ("missionsForGuest", VBool true);
    ("enableAssetIdsOverlay", VBool true);
    ("enableMasterControlPalette", VBool true);
    ("enableBrandModeGate", VBool true);
    ("enablePriceTagGate", VBool true) ].

(** *** The key-value store *)

(** [loadData]: the default stands in for an absent key, an empty text and a
    text that does not parse. *)
Definition loadData (key : string) (def : value) (st : LocalStorage.t) : value :=
  match LocalStorage.getItem key st with
  | Some s =>
      if (s =? "")%string then def
      else match Json.parse s with Some v => v | None => def end
  | None => def
  end.

(** The text [setItem] receives: [JSON.stringify] answers [undefined] for
    [undefined], which [setItem] turns into a string. *)
Definition serialized (val : value) : string :=
  match Json.stringify val with
  | Some s => s
  | None => "undefined"
  end.

(** [saveData]: a write the store refuses is logged and dropped. *)
Definition saveData (key : string) (val : value) (st : LocalStorage.t) : LocalStorage.t :=
  match LocalStorage.setItem key (serialized val) st with
  | Some st' => st'
  | None => st
  end.

(** The store takes the write [saveData key val] attempts. *)
Definition accepts (st : LocalStorage.t) (key : string) (val : value) : bool :=
  match LocalStorage.setItem key (serialized val) st with
  | Some _ => true
  | None => false
  end.

(** *** [useAnalytics] *)

(** A handler either runs to its end or stops at a [TypeError]; what it
    wrote before stays written. *)
Inductive outcome : Type :=
| Done (st : LocalStorage.t)
| Threw (st : LocalStorage.t).

Definition store_of (o : outcome) : LocalStorage.t :=
  match o with Done st | Threw st => st end.

(** [{ type, timestamp: now, ...payload }]. *)
Definition entry_of (type now : string) (payload : obj) : value :=
  VObj (assign [("type", VStr type); ("timestamp", VStr now)] payload).

(** [logs.push(entry); if (logs.length > 200) logs.shift();] *)
Definition push_capped (logs : list value) (entry : value) : list value :=
  let logs' := (logs ++ [entry])%list in
  if (200 <? length logs')%nat then tl logs' else logs'.

(** [payload.campaignId || payload.sponsorName]. *)
Definition tagged (payload : obj) : bool :=
  truthy (js_or (get_opt (VObj payload) "campaignId")
                (get_opt (VObj payload) "sponsorName")).

Definition logEvent (type : string) (payload : obj) (now : string)
    (st : LocalStorage.t) : outcome :=
  match loadData KEYS_ANALYTICS (VArr []) st with
  | VArr logs =>
      let entry := entry_of type now payload in
      let st1 := saveData KEYS_ANALYTICS (VArr (push_capped logs entry)) st in
      if tagged payload then
        match loadData KEYS_EVENTS_LOG (VArr []) st1 with
        | VArr campLogs =>
            Done (saveData KEYS_EVENTS_LOG (VArr (campLogs ++ [entry])%list) st1)
        | _ => Threw st1
        end
      else Done st1
  | _ => Threw st
  end.


Definition array_length (v : value) : nat :=
  match v with VArr xs => length xs | _ => 0%nat end.

(** *** [migrateLocalStorage] *)

(** [{ ...defaults, ...stored }]. *)
Definition merge (defaults stored : value) : value :=
  VObj (spread2 defaults stored).

(** Step 1: the flags.  The second component is the value handed to
    [setMasterFlags], if any. *)
Definition migrate_flags (st : LocalStorage.t) : LocalStorage.t * option value :=
  let currentFlags := loadData MASTER_FLAGS_KEY (VObj []) st in
  let mergedFlags := merge (VObj DEFAULT_MASTER_FLAGS) currentFlags in
  if negb (bool_decide (Json.stringify mergedFlags = Json.stringify currentFlags))
  then (saveData MASTER_FLAGS_KEY mergedFlags st, Some mergedFlags)
  else (st, None).

(** The callback of [users.map]: [None] is the [TypeError] of [u.role] on
    [null]. *)
Definition migrate_user (u : value) : option (value * bool) :=
  match get u "role" with
  | None => None
  | Some r =>
      if truthy r then Some (u, false)
      else Some (VObj (obj_set "role" ROLES_VISITOR (assign [] (own_props u))), true)
  end.

Fixpoint migrate_user_list (us : list value) : option (list value * bool) :=
  match us with
  | [] => Some ([], false)
  | u :: r =>
      match migrate_user u with
      | None => None
      | Some (u', c) =>
          match migrate_user_list r with
          | None => None
          | Some (r', c') => Some (u' :: r', c || c')
          end
      end
  end.

(** Step 2: the users. *)
Definition migrate_users (st : LocalStorage.t) : outcome :=
  match loadData USERS_DB_KEY (VArr []) st with
  | VArr users =>
      match migrate_user_list users with
      | Some (updatedUsers, usersChanged) =>
          if usersChanged then Done (saveData USERS_DB_KEY (VArr updatedUsers) st)
          else Done st
      | None => Threw st
      end
  | _ => Threw st
  end.

(** Step 3: [if (!localStorage.getItem(k)) saveData(k, v)]. *)
Definition ensure_key (k : string) (v : value) (st : LocalStorage.t) : LocalStorage.t :=
  match LocalStorage.getItem k st with
  | Some s => if (s =? "")%string then saveData k v st else st
  | None => saveData k v st
  end.

Definition season_default : value :=
  VObj [("seasonId", VStr "S1"); ("label", VStr "Genesis Season");
        ("level", VNum 1); ("maxLevel", VNum 10)].

Definition migrateLocalStorage (st : LocalStorage.t) : outcome * option value :=
  let '(st1, flags) := migrate_flags st in
  match migrate_users st1 with
  | Done st2 =>
      let st3 := ensure_key SEASON_KEY season_default st2 in
      let st4 := ensure_key BRAND_LEADS_KEY (VArr []) st3 in
      let st5 := ensure_key FLIGHTS_KEY (VArr []) st4 in
      (Done (ensure_key COMPLIANCE_NOTES_KEY (VObj []) st5), flags)
  | Threw st2 => (Threw st2, flags)
  end.

(** The users as the store holds them. *)
Definition stored_users (st : LocalStorage.t) : value :=
  loadData USERS_DB_KEY (VArr []) st.

Definition has_role (u : value) : bool := truthy (get_opt u "role").

(** [u == null]. *)
Definition nullish (u : value) : bool :=
  match u with VUndefined | VNull => true | _ => false end.

(** What the callback of [users.map] makes of one record. *)
Definition migrated (u u' : value) : Prop :=
  if has_role u then u' = u
  else u' = VObj (obj_set "role" ROLES_VISITOR (assign [] (own_props u))).

(** *** Viewers and what [SceneContent] renders *)

Inductive ViewState : Type := LANDING | TRANSITION | WORLD.

(** The state of [SceneContent] that the gates read.  A guest is a viewer
    without a session ([currentUser] is [null]) or with the account type
    [guest]. *)
Record Scene : Type := mkScene {
  isAdmin : bool;
  currentUser : value;
  masterFlags : obj;
  viewState : ViewState;
  brandModeEnabled : bool;
  showBrandPanel : bool;
  showMissions : bool;
  showVault : bool;
  showProgressDrawer : bool;
  selectedIds : list string;
  sceneData : value
}.

Definition flag (fs : obj) (k : string) : bool := truthy (get_opt (VObj fs) k).

Definition accountType (user : value) : value := get_opt user "accountType".

(** [LandingOverlay]: [isAdmin || (currentUser?.accountType === 'organization')]. *)
Definition canSeeBrandMode (isAdmin : bool) (currentUser : value) : bool :=
  isAdmin || strict_eq (accountType currentUser) ACCOUNT_TYPES_ORGANIZATION.

Inductive Widget : Type :=
| LandingBrandToggle   (* "For Brands" on the landing overlay *)
| BrandModeButton      (* "Brand Mode" in the in-world toolbar *)
| BrandPreviewPanel
| MissionsButton
| VaultButton
| MissionsModal
| RewardsVaultModal
| ProgressHandle       (* the arrow that opens the drawer *)
| ProgressDrawer.

Definition in_world (s : Scene) : bool :=
  match viewState s with WORLD | TRANSITION => true | LANDING => false end.

(** The condition under which the JSX of [SceneContent] (and of
    [LandingOverlay] for the first widget) puts each widget on screen. *)
Definition renders (s : Scene) (w : Widget) : bool :=
  match w with
  | LandingBrandToggle =>
      match viewState s with LANDING => true | _ => false end
      && flag (masterFlags s) "enableBrandMode"
      && canSeeBrandMode (isAdmin s) (currentUser s)
  | BrandModeButton => in_world s && flag (masterFlags s) "enableBrandMode"
  | BrandPreviewPanel => flag (masterFlags s) "enableBrandMode" && showBrandPanel s
  | MissionsButton => in_world s
  | VaultButton => in_world s
  | MissionsModal => showMissions s
  | RewardsVaultModal => showVault s
  | ProgressHandle =>
      in_world s && negb (isAdmin s) && flag (masterFlags s) "showCustomerProgressDrawer"
  | ProgressDrawer =>
      negb (isAdmin s) && flag (masterFlags s) "showCustomerProgressDrawer"
      && showProgressDrawer s
  end.

(** The handlers behind the widgets, and the flag switch of the master
    control panel. *)
Inductive Event : Type :=
| ClickLandingBrandToggle
| ClickBrandModeButton
| ClickMissions
| ClickVault
| ClickProgressHandle
| ToggleFlag (k : string).

Definition step (s : Scene) (ev : Event) : Scene :=
  match ev with
  | ClickLandingBrandToggle =>
      (* setBrandMode(p => !p), then the effect on [brandModeEnabled] *)
      let b := negb (brandModeEnabled s) in
      mkScene (isAdmin s) (currentUser s) (masterFlags s) (viewState s) b b
        (showMissions s) (showVault s) (showProgressDrawer s) (selectedIds s) (sceneData s)
  | ClickBrandModeButton =>
      mkScene (isAdmin s) (currentUser s) (masterFlags s) (viewState s)
        (brandModeEnabled s) (negb (showBrandPanel s))
        (showMissions s) (showVault s) (showProgressDrawer s) (selectedIds s) (sceneData s)
  | ClickMissions =>
      mkScene (isAdmin s) (currentUser s) (masterFlags s) (viewState s)
        (brandModeEnabled s) (showBrandPanel s)
        true (showVault s) (showProgressDrawer s) (selectedIds s) (sceneData s)
  | ClickVault =>
      mkScene (isAdmin s) (currentUser s) (masterFlags s) (viewState s)
        (brandModeEnabled s) (showBrandPanel s)
        (showMissions s) true (showProgressDrawer s) (selectedIds s) (sceneData s)
  | ClickProgressHandle =>
      mkScene (isAdmin s) (currentUser s) (masterFlags s) (viewState s)
        (brandModeEnabled s) (showBrandPanel s)
        (showMissions s) (showVault s) true (selectedIds s) (sceneData s)
  | ToggleFlag k =>
      (* setMasterFlags(p => ({ ...p, [k]: !p[k] })) *)
      mkScene (isAdmin s) (currentUser s)
        (obj_set k (VBool (negb (flag (masterFlags s) k))) (masterFlags s))
        (viewState s) (brandModeEnabled s) (showBrandPanel s)
        (showMissions s) (showVault s) (showProgressDrawer s) (selectedIds s) (sceneData s)
  end.

(** The scene with one flag set, as the master control panel leaves it. *)
Definition with_flag (s : Scene) (k : string) (v : value) : Scene :=
  mkScene (isAdmin s) (currentUser s) (obj_set k v (masterFlags s)) (viewState s)
    (brandModeEnabled s) (showBrandPanel s) (showMissions s) (showVault s)
    (showProgressDrawer s) (selectedIds s) (sceneData s).

(** The widget a click needs. *)
Definition needs (ev : Event) : option Widget :=
  match ev with
  | ClickLandingBrandToggle => Some LandingBrandToggle
  | ClickBrandModeButton => Some BrandModeButton
  | ClickMissions => Some MissionsButton
  | ClickVault => Some VaultButton
  | ClickProgressHandle => Some ProgressHandle
  | ToggleFlag _ => None
  end.

Definition can_fire (s : Scene) (ev : Event) : bool :=
  match needs ev with Some w => renders s w | None => isAdmin s end.

(** *** [BrandPreviewPanel] *)

(** [selectedId ? sceneData[selectedId] : null]. *)
Definition selectedItem (selectedId : value) (sceneData : value) : value :=
  match selectedId with
  | VStr k => if truthy selectedId then get_opt sceneData k else VNull
  | _ => VNull
  end.

(** [isAdmin || (selectedItem && selectedItem.brand &&
                 selectedItem.brand.orgId === currentUser?.orgContext?.orgId)].
    The result is the operand the chain stops at. *)
Definition canSeeMetrics (isAdmin : bool) (selectedItem currentUser : value) : value :=
  if isAdmin then VBool true
  else if truthy selectedItem then
    let brand := get_opt selectedItem "brand" in
    if truthy brand then
      VBool (strict_eq (get_opt brand "orgId")
                       (get_opt (get_opt currentUser "orgContext") "orgId"))
    else brand
  else selectedItem.

(** [logs.filter(a => a.type === t).length]; [None] is the [TypeError] of
    [a.type] on a [null] entry. *)
Fixpoint count_type (t : string) (logs : list value) : option nat :=
  match logs with
  | [] => Some 0%nat
  | a :: r =>
      match get a "type", count_type t r with
      | Some ty, Some n => Some (if strict_eq ty (VStr t) then S n else n)
      | _, _ => None
      end
  end.

Record Metrics : Type := mkMetrics {
  impressions : nat;
  clicks : nat;
  ctr : string;
  dwell : string
}.

(** [n || d] on a counter. *)
Definition or_default (n d : nat) : nat := if (n =? 0)%nat then d else n.

(** The memoised [metrics]: [Some None] is [null], the redacted view. *)
Definition metrics (canSee : value) (analytics : list value) : option (option Metrics) :=
  if negb (truthy canSee) then Some None
  else
    match count_type "billboard_impression" analytics,
          count_type "billboard_click" analytics with
    | Some i, Some c =>
        let impressions := or_default i 1250 in
        let clicks := or_default c 85 in
        Some (Some (mkMetrics impressions clicks (Num.percent 2 clicks impressions) "4.2s"))
    | _, _ => None
    end.

(** The KPI block of the panel. *)
Inductive KpiBlock : Type :=
| Tiles (m : Metrics)
| Confidential.

(** The panel as a function of its props and of the store; [None] is a
    render that throws.  The log is looked into only past the guard. *)
Definition BrandPreviewPanel_kpis (isAdmin : bool) (currentUser selectedId sceneData : value)
    (st : LocalStorage.t) : option KpiBlock :=
  let analytics := loadData KEYS_ANALYTICS (VArr []) st in
  let can := canSeeMetrics isAdmin (selectedItem selectedId sceneData) currentUser in
  if negb (truthy can) then Some Confidential
  else
    match analytics with
    | VArr logs =>
        match metrics can logs with
        | Some (Some m) => Some (Tiles m)
        | Some None => Some Confidential
        | None => None
        end
    | _ => None
    end.

(** [Array.from(selectedIds).pop()]. *)
Definition last_selected (ids : list string) : value :=
  match last ids with
  | Some k => VStr k
  | None => VUndefined
  end.

(** The panel as [SceneContent] mounts it: [selectedId], [sceneData] and
    [isAdmin] are passed, [currentUser] is not. *)
Definition SceneContent_panel_kpis (s : Scene) (st : LocalStorage.t) : option KpiBlock :=
  BrandPreviewPanel_kpis (isAdmin s) VUndefined (last_selected (selectedIds s))
    (sceneData s) st.

(** *** [UnifiedControlPanel]: metrics by campaign *)

(** [String(v)]: the property key a value stands for in [map[id]]. *)
Fixpoint to_string (v : value) : string :=
  match v with
  | VUndefined => "undefined"
  | VNull => "null"
  | VBool true => "true"
  | VBool false => "false"
  | VNum n => Json.print_Z n
  | VStr s => s
  | VArr xs =>
      (fix join (xs : list value) : string :=
         match xs with
         | [] => ""
         | x :: r =>
             let sx := match x with VUndefined | VNull => "" | _ => to_string x end in
             match r with [] => sx | _ :: _ => sx ++ String "," (join r) end
         end) xs
  | VObj _ => "[object Object]"
  end.

Record CampaignRow : Type := mkRow {
  row_campaignId : value;
  row_sponsorName : value;
  row_impressions : nat;
  row_clicks : nat;
  row_dwell : Z
}.

(** One turn of the [forEach]; [None] is a [TypeError], or a [seconds] that
    is not a number (every caller of [logEvent] passes a number). *)
Definition add_event (map : gmap string CampaignRow) (e : value)
    : option (gmap string CampaignRow) :=
  match e with
  | VUndefined | VNull => None
  | _ =>
      let id := js_or (get_opt e "campaignId") (VStr "N/A") in
      let key := to_string id in
      let row0 :=
        match map !! key with
        | Some r => r
        | None => mkRow id (js_or (get_opt e "sponsorName") (VStr "N/A")) 0 0 0
        end in
      let ty := get_opt e "type" in
      let row1 :=
        if strict_eq ty (VStr "billboard_impression")
        then mkRow (row_campaignId row0) (row_sponsorName row0)
               (S (row_impressions row0)) (row_clicks row0) (row_dwell row0)
        else row0 in
      let row2 :=
        if strict_eq ty (VStr "billboard_click")
        then mkRow (row_campaignId row1) (row_sponsorName row1)
               (row_impressions row1) (S (row_clicks row1)) (row_dwell row1)
        else row1 in
      if strict_eq ty (VStr "billboard_dwell") then
        match js_or (get_opt e "seconds") (VNum 0) with
        | VNum n =>
            Some (<[key := mkRow (row_campaignId row2) (row_sponsorName row2)
                             (row_impressions row2) (row_clicks row2)
                             (row_dwell row2 + n)%Z]> map)
        | _ => None
        end
      else Some (<[key := row2]> map)
  end.

Fixpoint add_events (map : gmap string CampaignRow) (logs : list value)
    : option (gmap string CampaignRow) :=
  match logs with
  | [] => Some map
  | e :: r =>
      match add_event map e with
      | Some map' => add_events map' r
      | None => None
      end
  end.

(** [metricsByCampaign], before [Object.values] lists its rows.  The panel
    that owns it returns [null] for every viewer who is not the admin. *)
Definition metricsByCampaign (st : LocalStorage.t) : option (gmap string CampaignRow) :=
  match loadData KEYS_EVENTS_LOG (VArr []) st with
  | VArr logs => add_events ∅ logs
  | _ => None
  end.

Definition UnifiedControlPanel_renders (isAdmin : bool) : bool := isAdmin.

(** The CTR cell of a row:
    [m.impressions > 0 ? ((m.clicks / m.impressions) * 100).toFixed(1) : '0.0']. *)
Definition row_ctr (m : CampaignRow) : string :=
  if (0 <? row_impressions m)%nat
  then Num.percent 1 (row_clicks m) (row_impressions m)
  else "0.0".






(** *** [DashboardPanel] *)

Record Kpis : Type := mkKpis {
  kpi_impressions : nat;
  kpi_clicks : nat;
  kpi_ctr : string
}.

(** The advertising part of [kpis]. *)
Definition kpis (analytics : list value) : option Kpis :=
  match count_type "billboard_impression" analytics,
        count_type "billboard_click" analytics with
  | Some impressions, Some clicks =>
      Some (mkKpis impressions clicks
              (if (0 <? impressions)%nat then Num.percent 2 clicks impressions
               else "0.00"))
  | _, _ => None
  end.

(** *** The three CTR read-outs side by side *)


(** *** [logAdmin] and [handleSave] *)

Definition ADMIN_LOGS_KEY : string := "VIRTUNOVO_ADMIN_LOGS".
Definition STORAGE_KEY : string := "VIRTUNOVO_SCENE_DATA".

(** [{ ts: now, actor: 'Admin', action, payload: payload || {} }]. *)
Definition admin_entry (action now : string) (payload : value) : value :=
  VObj [("ts", VStr now); ("actor", VStr "Admin"); ("action", VStr action);
        ("payload", js_or payload (VObj []))].

(** [logs.unshift(entry); if (logs.length > 500) logs.pop();] *)
Definition unshift_capped (logs : list value) (entry : value) : list value :=
  let logs' := entry :: logs in
  if (500 <? length logs')%nat then removelast logs' else logs'.

(** The flags are read from the store, not from the state of the scene. *)
Definition logAdmin (action : string) (payload : value) (now : string)
    (st : LocalStorage.t) : outcome :=
  match get (loadData MASTER_FLAGS_KEY (VObj DEFAULT_MASTER_FLAGS) st) "enableAuditLog" with
  | None => Threw st
  | Some enabled =>
      if negb (truthy enabled) then Done st
      else
        match loadData ADMIN_LOGS_KEY (VArr []) st with
        | VArr logs =>
            Done (saveData ADMIN_LOGS_KEY
                    (VArr (unshift_capped logs (admin_entry action now payload))) st)
        | _ => Threw st
        end
  end.

Definition admin_log (st : LocalStorage.t) : value :=
  loadData ADMIN_LOGS_KEY (VArr []) st.

(** [handleSave]: the scene, the flags, then the audit entry. *)
Definition handleSave (s : Scene) (now : string) (st : LocalStorage.t) : outcome :=
  logAdmin "save_scene" (VObj []) now
    (saveData MASTER_FLAGS_KEY (VObj (masterFlags s))
       (saveData STORAGE_KEY (sceneData s) st)).

(** *** Accounts: [handleLoginAttempt], [registerUser], [handleSignup] *)

Definition ADMIN_CONFIG_KEY : string := "VIRTUNOVO_ADMIN_CONFIG".
Definition ORG_CONTEXT_KEY : string := "VIRTUNOVO_ORG_CONTEXT".
Definition ACCOUNT_TYPE_KEY : string := "VIRTUNOVO_ACCOUNT_TYPE".
Definition KEYS_REF_INCOMING : string := "VIRTUNOVO_REF_INCOMING".
Definition KEYS_REF_LEDGER : string := "VIRTUNOVO_REF_LEDGER".
Definition KEYS_REF_REWARD_DATE : string := "VIRTUNOVO_REF_REWARD_DATE".

Definition ROLES_ADMIN : value := VStr "ADMIN".
Definition ROLES_ORG_ADMIN : value := VStr "ORG_ADMIN".

Definition DEFAULT_ADMIN_CONFIG : value :=
  VObj [("email", VStr "admin@virtunovo.com"); ("password", VStr "password");
        ("secretCode", VStr "123456")].

(** [xs.find(pred)]: the first element the callback accepts, [undefined]
    when there is none; [None] when the callback throws on the way. *)
Fixpoint find_value (pred : value -> option bool) (xs : list value) : option value :=
  match xs with
  | [] => Some VUndefined
  | x :: r =>
      match pred x with
      | None => None
      | Some true => Some x
      | Some false => find_value pred r
      end
  end.

(** [u.email === email]. *)
Definition email_is (email : value) (u : value) : option bool :=
  match get u "email" with
  | Some e => Some (strict_eq e email)
  | None => None
  end.

(** [u.email === email && u.password === password]. *)
Definition credentials_match (email password : string) (u : value) : option bool :=
  match get u "email" with
  | Some e =>
      if strict_eq e (VStr email) then
        match get u "password" with
        | Some p => Some (strict_eq p (VStr password))
        | None => None
        end
      else Some false
  | None => None
  end.

(** [email === admin.email && password === admin.password] on the stored
    admin record. *)
Definition admin_credentials (email password : string) (st : LocalStorage.t) : option bool :=
  let admin := loadData ADMIN_CONFIG_KEY DEFAULT_ADMIN_CONFIG st in
  match get admin "email" with
  | Some e =>
      if strict_eq (VStr email) e then
        match get admin "password" with
        | Some p => Some (strict_eq (VStr password) p)
        | None => None
        end
      else Some false
  | None => None
  end.

Inductive LoginResult : Type :=
| TwoFactorRequired                      (* { status: "2FA_REQUIRED" } *)
| LoginSuccess (user role : value)       (* { status: "SUCCESS", user, role } *)
| LoginError (msg : string).             (* { status: "ERROR", msg } *)

(** The answer for the record [find] has returned. *)
Definition login_answer (user : value) : LoginResult :=
  if truthy user then
    if truthy (get_opt user "blocked") then LoginError "Account blocked."
    else LoginSuccess user (js_or (get_opt user "role") ROLES_VISITOR)
  else LoginError "Invalid credentials.".

(** [None] is a [TypeError]. *)
Definition handleLoginAttempt (email password : string) (st : LocalStorage.t)
    : option LoginResult :=
  match admin_credentials email password st with
  | None => None
  | Some true => Some TwoFactorRequired
  | Some false =>
      match loadData USERS_DB_KEY (VArr []) st with
      | VArr users =>
          match find_value (credentials_match email password) users with
          | Some user => Some (login_answer user)
          | None => None
          end
      | _ => None
      end
  end.

(** [String(x)] occurs in [s]: [s.includes(x)] on a string. *)
Fixpoint str_includes (sub s : string) : bool :=
  String.prefix sub s ||
  match s with
  | EmptyString => false
  | String _ r => str_includes sub r
  end.

(** The referral block of [registerUser].  The ledger is an array in every
    store the program has written; on a string [includes] is the substring
    test and [push] is missing. *)
Definition referral_reward (email : value) (today : string) (st : LocalStorage.t) : outcome :=
  match LocalStorage.getItem KEYS_REF_INCOMING st with
  | None => Done st
  | Some incomingRef =>
      if (incomingRef =? "")%string then Done st
      else if bool_decide (LocalStorage.getItem KEYS_REF_REWARD_DATE st = Some today)
      then Done st
      else
        match loadData KEYS_REF_LEDGER (VArr []) st with
        | VArr ledger =>
            if existsb (fun x => strict_eq x email) ledger then Done st
            else
              let st1 := saveData KEYS_REF_LEDGER (VArr (ledger ++ [email])%list) st in
              match LocalStorage.setItem KEYS_REF_REWARD_DATE today st1 with
              | Some st2 => Done st2
              | None => Threw st1
              end
        | VStr s => if str_includes (to_string email) s then Done st else Threw st
        | _ => Threw st
        end
  end.

(** [{ ...data, verified: true, blocked: false, joined,
       role: data.role || ROLES.VISITOR }]. *)
Definition new_user (data : obj) (joined : string) : obj :=
  obj_set "role" (js_or (get_opt (VObj data) "role") ROLES_VISITOR)
    (obj_set "joined" (VStr joined)
       (obj_set "blocked" (VBool false)
          (obj_set "verified" (VBool true) (assign [] data)))).

(** [{ orgId: `ORG-${Date.now()}`, orgName: data.org,
       orgIndustry: data.industry, role: ROLES.ORG_ADMIN }]. *)
Definition org_context (data : obj) (now : Z) : value :=
  VObj [("orgId", VStr ("ORG-" ++ Json.print_Z now));
        ("orgName", get_opt (VObj data) "org");
        ("orgIndustry", get_opt (VObj data) "industry");
        ("role", ROLES_ORG_ADMIN)].

(** What a handler of the sign-up form ends with: the two answers of
    [registerUser], or an exception. *)
Inductive Registration : Type :=
| Created (st : LocalStorage.t)                 (* { success: true, msg: "Account created." } *)
| Refused (st : LocalStorage.t) (msg : string)  (* { success: false, msg } *)
| Raised (st : LocalStorage.t).

Definition registered_store (r : Registration) : LocalStorage.t :=
  match r with Created st | Refused st _ | Raised st => st end.

(** [today] and [joined] are the date and the time stamp of the call, [now]
    is [Date.now()]. *)
Definition registerUser (data : obj) (today joined : string) (now : Z)
    (st : LocalStorage.t) : Registration :=
  let email := get_opt (VObj data) "email" in
  match loadData USERS_DB_KEY (VArr []) st with
  | VArr users =>
      match find_value (email_is email) users with
      | None => Raised st
      | Some found =>
          if truthy found then Refused st "User exists!"
          else
            match referral_reward email today st with
            | Threw st1 => Raised st1
            | Done st1 =>
                let newUser := new_user data joined in
                let with_org :=
                  if strict_eq (get_opt (VObj data) "accountType") ACCOUNT_TYPES_ORGANIZATION
                  then
                    let ctx := org_context data now in
                    match LocalStorage.setItem ORG_CONTEXT_KEY (serialized ctx) st1 with
                    | Some st2 => Some (obj_set "orgContext" ctx newUser, st2)
                    | None => None
                    end
                  else Some (newUser, st1) in
                match with_org with
                | Some (newUser', st2) =>
                    Created (saveData USERS_DB_KEY (VArr (users ++ [VObj newUser'])%list) st2)
                | None => Raised st1
                end
            end
      end
  | _ => Raised st
  end.

(** The record [registerUser] appends: the new user, with the context of
    an organisation when the account type asks for one. *)
Definition registered_record (data : obj) (joined : string) (now : Z) : obj :=
  if strict_eq (get_opt (VObj data) "accountType") ACCOUNT_TYPES_ORGANIZATION
  then obj_set "orgContext" (org_context data now) (new_user data joined)
  else new_user data joined.

(** The two tabs of the sign-up form, and [tab.toLowerCase()]. *)
Inductive Tab : Type := INDIVIDUAL | ORG.

Definition tab_lower (tab : Tab) : string :=
  match tab with INDIVIDUAL => "individual" | ORG => "org" end.

(** The record [handleSignup] hands to [registerUser]. *)
Definition signup_data (email pass name orgName industry : string) (tab : Tab) : obj :=
  [("email", VStr email); ("password", VStr pass); ("name", VStr name);
   ("org", VStr orgName); ("industry", VStr industry);
   ("role", match tab with ORG => ROLES_ORG_ADMIN | INDIVIDUAL => ROLES_VISITOR end);
   ("accountType", VStr (tab_lower tab))].

(** [handleSignup]: [Refused] carries the text of the error toast. *)
Definition handleSignup (email pass name orgName industry : string) (tab : Tab)
    (today joined : string) (now : Z) (st : LocalStorage.t) : Registration :=
  if (email =? "")%string || (pass =? "")%string || (name =? "")%string
  then Refused st "Missing fields"
  else
    match registerUser (signup_data email pass name orgName industry tab) today joined now st with
    | Created st1 =>
        match LocalStorage.setItem ACCOUNT_TYPE_KEY (tab_lower tab) st1 with
        | Some st2 => Created st2
        | None => Raised st1
        end
    | r => r
    end.

(** The callback [onLoginSuccess] of [SceneContent]. *)
Definition onLoginSuccess (s : Scene) (u r : value) : Scene :=
  mkScene (isAdmin s || strict_eq r ROLES_ADMIN) u (masterFlags s) (viewState s)
    (brandModeEnabled s) (showBrandPanel s) (showMissions s) (showVault s)
    (showProgressDrawer s) (selectedIds s) (sceneData s).

(** The button "Admin View" of the toolbar, inside the block of the world:
    [!isAdmin && currentUser && currentUser.name === 'Admin']; its handler
    is [setIsAdmin(true)]. *)
Definition admin_view_offered (s : Scene) : bool :=
  in_world s && negb (isAdmin s) && truthy (currentUser s)
  && strict_eq (get_opt (currentUser s) "name") (VStr "Admin").

Definition click_admin_view (s : Scene) : Scene :=
  mkScene true (currentUser s) (masterFlags s) (viewState s)
    (brandModeEnabled s) (showBrandPanel s) (showMissions s) (showVault s)
    (showProgressDrawer s) (selectedIds s) (sceneData s).

(** [onSave] of [ChangeCredentialsModal], with the audit entry that follows
    it. *)
Definition change_credentials (cfg : value) (now : string) (st : LocalStorage.t) : outcome :=
  logAdmin "credentials_change" (VObj []) now (saveData ADMIN_CONFIG_KEY cfg st).

(** The e-mail addresses of a user list. *)
Definition emails (users : list value) : list value :=
  map (fun u => get_opt u "email") users.

(** *** [UserManagementModal] *)

(** [xs.map(f)] with a callback that may throw. *)
Fixpoint map_values (f : value -> option value) (xs : list value) : option (list value) :=
  match xs with
  | [] => Some []
  | x :: r =>
      match f x, map_values f r with
      | Some y, Some r' => Some (y :: r')
      | _, _ => None
      end
  end.

(** [x.email === u.email]. *)
Definition same_email (u x : value) : option bool :=
  match get x "email", get u "email" with
  | Some a, Some b => Some (strict_eq a b)
  | _, _ => None
  end.

(** [{ ...x, [k]: v }]. *)
Definition with_field (k : string) (v : value) (x : value) : value :=
  VObj (obj_set k v (assign [] (own_props x))).

(** The callback [x => x.email === u.email ? { ...x, [k]: f(x) } : x]. *)
Definition update_row (k : string) (f : value -> value) (u x : value) : option value :=
  match same_email u x with
  | Some true => Some (with_field k (f x) x)
  | Some false => Some x
  | None => None
  end.

(** [userList.map(x => x.email === u.email ? { ...x, [k]: f(x) } : x)]. *)
Definition update_rows (k : string) (f : value -> value) (u : value)
    (userList : list value) : option (list value) :=
  map_values (update_row k f u) userList.

(** [{ ...x, role: newRole }] on the rows of [u]. *)
Definition role_changed (u : value) (newRole : string) (userList : list value)
    : option (list value) :=
  update_rows "role" (fun _ => VStr newRole) u userList.

(** [{ ...x, blocked: !x.blocked }] on the rows of [u]. *)
Definition block_toggled (u : value) (userList : list value) : option (list value) :=
  update_rows "blocked" (fun x => VBool (negb (truthy (get_opt x "blocked")))) u userList.

(** [userList.filter(x => x.email !== u.email)]. *)
Fixpoint without_user (u : value) (userList : list value) : option (list value) :=
  match userList with
  | [] => Some []
  | x :: r =>
      match same_email u x, without_user u r with
      | Some same, Some r' => Some (if same then r' else x :: r')
      | _, _ => None
      end
  end.

(** The three handlers of a row; [userList] is the state of the modal,
    the stored list when the modal opens. *)
Definition change_role (userList : list value) (u : value) (newRole : string)
    (now : string) (st : LocalStorage.t) : outcome :=
  match role_changed u newRole userList, get u "email" with
  | Some updated, Some e =>
      logAdmin "user_role_change" (VObj [("email", e); ("role", VStr newRole)]) now
        (saveData USERS_DB_KEY (VArr updated) st)
  | Some updated, None => Threw (saveData USERS_DB_KEY (VArr updated) st)
  | None, _ => Threw st
  end.

Definition toggle_block (userList : list value) (u : value) (st : LocalStorage.t) : outcome :=
  match block_toggled u userList with
  | Some updated => Done (saveData USERS_DB_KEY (VArr updated) st)
  | None => Threw st
  end.

(** [confirmed] is the answer of [window.confirm]. *)
Definition delete_user (userList : list value) (u : value) (confirmed : bool)
    (st : LocalStorage.t) : outcome :=
  if confirmed then
    match without_user u userList with
    | Some rest => Done (saveData USERS_DB_KEY (VArr rest) st)
    | None => Threw st
    end
  else Done st.

(** *** The session across a reload *)

Definition AUTH_STATE_KEY : string := "VIRTUNOVO_AUTH_STATE".
Definition USER_SESSION_KEY : string := "VIRTUNOVO_REMEMBER_USER".
Definition IS_ADMIN_KEY : string := "VIRTUNOVO_IS_ADMIN".

(** [if (c) localStorage.setItem(k, v); else localStorage.removeItem(k);]
    These writes are not wrapped: [None] is the exception of [setItem]. *)
Definition set_or_remove (c : bool) (k v : string) (st : LocalStorage.t)
    : option LocalStorage.t :=
  if c then LocalStorage.setItem k v st else Some (LocalStorage.removeItem k st).

(** The effect of [SceneContent] on [isAdmin], [viewState] and
    [currentUser]. *)
Definition persist_session (s : Scene) (st : LocalStorage.t) : outcome :=
  match set_or_remove (isAdmin s) IS_ADMIN_KEY "true" st with
  | None => Threw st
  | Some st1 =>
      match set_or_remove (truthy (currentUser s)) USER_SESSION_KEY
              (serialized (currentUser s)) st1 with
      | None => Threw st1
      | Some st2 =>
          match set_or_remove (in_world s) AUTH_STATE_KEY "WORLD" st2 with
          | None => Threw st2
          | Some st3 => Done st3
          end
      end
  end.

(** The initial states of [SceneContent]:
    [localStorage.getItem("VIRTUNOVO_IS_ADMIN") === "true"],
    [JSON.parse(localStorage.getItem(USER_SESSION_KEY))] with [null] for a
    text that does not parse, and
    [localStorage.getItem(AUTH_STATE_KEY) ? "TRANSITION" : "LANDING"]. *)
Definition initial_isAdmin (st : LocalStorage.t) : bool :=
  bool_decide (LocalStorage.getItem IS_ADMIN_KEY st = Some "true").

Definition initial_currentUser (st : LocalStorage.t) : value :=
  match LocalStorage.getItem USER_SESSION_KEY st with
  | Some s => match Json.parse s with Some v => v | None => VNull end
  | None => VNull
  end.

Definition initial_viewState (st : LocalStorage.t) : ViewState :=
  match LocalStorage.getItem AUTH_STATE_KEY st with
  | Some s => if (s =? "")%string then LANDING else TRANSITION
  | None => LANDING
  end.

Definition initial_masterFlags (st : LocalStorage.t) : value :=
  loadData MASTER_FLAGS_KEY (VObj DEFAULT_MASTER_FLAGS) st.

(** *** [BrandPartnerModal]: the request for a pitch deck *)

Definition KEYS_BRAND_LEADS_LEGACY : string := "VIRTUNOVO_BRAND_LEADS".

(** [{ id: `lead_${Date.now()}`, ...form, date, status: 'NEW',
       context: prefill ? 'From Brand Preview' : 'Direct Request' }]. *)
Definition lead_of (form : obj) (prefill : value) (now : Z) (date : string) : value :=
  VObj (obj_set "context"
          (VStr (if truthy prefill then "From Brand Preview" else "Direct Request"))
          (obj_set "status" (VStr "NEW")
             (obj_set "date" (VStr date)
                (assign [("id", VStr ("lead_" ++ Json.print_Z now))] form)))).

(** [{ ...form, date }]. *)
Definition legacy_lead_of (form : obj) (date : string) : value :=
  VObj (obj_set "date" (VStr date) (assign [] form)).

(** [{ company: form.company, from_preview: !!prefill }]. *)
Definition deck_request (form : obj) (prefill : value) : value :=
  VObj [("company", get_opt (VObj form) "company"); ("from_preview", VBool (truthy prefill))].

(** [submit]: [date], [ts] and [date'] are the three time stamps it takes,
    [now] is [Date.now()]. *)
Definition submit (form : obj) (prefill : value) (now : Z) (date ts date' : string)
    (st : LocalStorage.t) : outcome :=
  match loadData BRAND_LEADS_KEY (VArr []) st with
  | VArr leads =>
      let st1 :=
        saveData BRAND_LEADS_KEY (VArr (leads ++ [lead_of form prefill now date])%list) st in
      match logAdmin "brand_deck_request" (deck_request form prefill) ts st1 with
      | Done st2 =>
          match loadData KEYS_BRAND_LEADS_LEGACY (VArr []) st2 with
          | VArr legacyLeads =>
              Done (saveData KEYS_BRAND_LEADS_LEGACY
                      (VArr (legacyLeads ++ [legacy_lead_of form date'])%list) st2)
          | _ => Threw st2
          end
      | Threw st2 => Threw st2
      end
  | _ => Threw st
  end.

(** The leads as [LeadsPanel] loads them. *)
Definition stored_leads (st : LocalStorage.t) : value :=
  loadData BRAND_LEADS_KEY (VArr []) st.

(** *** The scoped view, as the specification words it

    The definitions below follow the specification, not the source: the
    events that belong to a viewer are those whose placement carries the
    viewer's organisation in [brand.orgId].  They serve to compare what the
    panel shows with what the specification asks for. *)




End App.

(** ** Stores, viewers and logs used as examples *)

Module Samples.
Import Js App.

Definition empty_store : LocalStorage.t := LocalStorage.mk ∅ 5000000.


Definition sample_event : value :=
  VObj [("type", VStr "billboard_click"); ("timestamp", VStr "2026-01-01T00:00:00.000Z");
        ("id", VStr "BILLBOARD_0"); ("sponsorName", VStr "VirtuTech")].

(** A store whose two logs hold 200 entries each. *)
Definition full_store : LocalStorage.t :=
  saveData KEYS_EVENTS_LOG (VArr (repeat sample_event 200))
    (saveData KEYS_ANALYTICS (VArr (repeat sample_event 200)) empty_store).


Definition sample_users : list value :=
  [ VObj [("email", VStr "ann@example.org"); ("name", VStr "Ann")];
    VObj [("email", VStr "bob@example.org"); ("role", VStr "EDITOR")];
    VObj [("email", VStr "cy@example.org"); ("role", VNull)] ].

Definition migrated_sample_users : list value :=
  [ VObj [("email", VStr "ann@example.org"); ("name", VStr "Ann"); ("role", VStr "VISITOR")];
    VObj [("email", VStr "bob@example.org"); ("role", VStr "EDITOR")];
    VObj [("email", VStr "cy@example.org"); ("role", VStr "VISITOR")] ].

(** A store that holds the sample users and nothing else. *)
Definition sample_users_store (quota : N) : LocalStorage.t :=
  saveData USERS_DB_KEY (VArr sample_users) (LocalStorage.mk ∅ quota).

(** A guest has no session. *)
Definition guest_scene (flags : obj) : Scene :=
  mkScene false VNull flags WORLD false false false false false [] (VObj []).

Definition individual_user : value :=
  VObj [("email", VStr "ann@example.org"); ("role", VStr "VISITOR");
        ("accountType", VStr "individual")].

Definition individual_scene (flags : obj) : Scene :=
  mkScene false individual_user flags WORLD false false false false false [] (VObj []).

Definition org_user : value :=
  VObj [("email", VStr "ops@acme.example"); ("role", VStr "ORG_ADMIN");
        ("accountType", VStr "organization");
        ("orgContext", VObj [("orgId", VStr "ORG-1"); ("orgName", VStr "Acme")])].

Definition org_scene (flags : obj) : Scene :=
  mkScene false org_user flags WORLD false false false false false [] (VObj []).

Definition flags_without_guest_missions : obj :=
  obj_set "missionsForGuest" (VBool false) DEFAULT_MASTER_FLAGS.

Definition event (type id : string) : value :=
  VObj [("type", VStr type); ("timestamp", VStr "2026-01-01T00:00:00.000Z");
        ("id", VStr id); ("campaignId", VStr "X")].

(** Ten impressions and three clicks of campaign X. *)
Definition ten_three : list value :=
  (repeat (event "billboard_impression" "BILLBOARD_0") 10
   ++ repeat (event "billboard_click" "BILLBOARD_0") 3)%list.

Definition row_X : CampaignRow := mkRow (VStr "X") (VStr "N/A") 10 3 0.


(** A billboard to which the admin has given a brand name but no
    organisation yet. *)
Definition unassigned_billboard : value :=
  VObj [("sponsorName", VStr "VirtuTech"); ("brand", VObj [("orgName", VStr "Acme")])].

(** Two billboards, one rented by ORG-1 and one by ORG-2. *)
Definition two_orgs_scene : value :=
  VObj [("BILLBOARD_0", VObj [("sponsorName", VStr "VirtuTech");
                               ("brand", VObj [("orgId", VStr "ORG-1")])]);
        ("BILLBOARD_1", VObj [("sponsorName", VStr "CyberCola");
                               ("brand", VObj [("orgId", VStr "ORG-2")])])].







Definition audit_sample : value :=
  VObj [("ts", VStr "2026-01-01T00:00:00.000Z"); ("actor", VStr "Admin");
        ("action", VStr "save_scene"); ("payload", VObj [])].

(** A store whose audit log holds two entries. *)
Definition audited_store : LocalStorage.t :=
  saveData ADMIN_LOGS_KEY (VArr [audit_sample; audit_sample]) empty_store.

(** The flags with the audit log switched off. *)
Definition flags_without_audit : obj :=
  obj_set "enableAuditLog" (VBool false) DEFAULT_MASTER_FLAGS.

Definition admin_scene (flags : obj) : Scene :=
  mkScene true (VObj [("name", VStr "Admin")]) flags WORLD false false false false false []
    (VObj [("BILLBOARD_0", unassigned_billboard)]).

(** A store written by an older release: two flags, one of them switched
    off by the admin, and a season record. *)
Definition old_flags : obj := [("showChat", VBool false); ("legacyFlag", VBool true)].

Definition old_store : LocalStorage.t :=
  saveData SEASON_KEY (VObj [("seasonId", VStr "S0")])
    (saveData MASTER_FLAGS_KEY (VObj old_flags) empty_store).

(** Two accounts, the second one blocked. *)
Definition ann : value :=
  VObj [("email", VStr "ann@example.org"); ("password", VStr "pw-ann");
        ("name", VStr "Ann"); ("role", VStr "VISITOR"); ("blocked", VBool false)].

Definition bob : value :=
  VObj [("email", VStr "bob@example.org"); ("password", VStr "pw-bob");
        ("name", VStr "Bob"); ("role", VStr "EDITOR"); ("blocked", VBool true)].

Definition accounts : list value := [ann; bob].

Definition accounts_store : LocalStorage.t :=
  saveData USERS_DB_KEY (VArr accounts) empty_store.

(** What the sign-up form sends for a new visitor. *)
Definition cy_data : obj :=
  [("email", VStr "cy@example.org"); ("password", VStr "pw-cy"); ("name", VStr "Cy");
   ("org", VStr ""); ("industry", VStr ""); ("role", VStr "VISITOR");
   ("accountType", VStr "individual")].

(** A store of a visitor who came through a referral link. *)
Definition referred_store : LocalStorage.t :=
  default accounts_store (LocalStorage.setItem KEYS_REF_INCOMING "REF-ANN" accounts_store).

Definition new_admin_config : value :=
  VObj [("email", VStr "root@example.org"); ("password", VStr "s3cret");
        ("secretCode", VStr "654321")].

(** A visitor in the world, logged in as [individual_user]. *)
Definition visitor_session : Scene :=
  mkScene false individual_user DEFAULT_MASTER_FLAGS WORLD false false false false false []
    (VObj []).

(** A request for a pitch deck, as the form holds it. *)
Definition lead_form : obj :=
  [("name", VStr "Ann"); ("company", VStr "Acme"); ("email", VStr "ann@acme.example");
   ("budget", VStr "10L+"); ("objectives", VStr "reach")].

End Samples.

(** * Proofs *)

(** ** Strings *)

Module StrFacts.
Import Js.

Lemma str_app_cons (c : ascii) (a b : string) : String c a ++ b = String c (a ++ b).
Proof. reflexivity. Qed.

Lemma str_app_nil_l (b : string) : "" ++ b = b.
Proof. reflexivity. Qed.

Lemma str_app_assoc (a b c : string) : (a ++ b) ++ c = a ++ (b ++ c).
Proof.
  induction a as [|x a IH]; [reflexivity|].
  rewrite !str_app_cons. f_equal. exact IH.
Qed.

Lemma str_app_length (a b : string) :
  String.length (a ++ b) = (String.length a + String.length b)%nat.
Proof.
  induction a as [|x a IH]; [reflexivity|].
  rewrite str_app_cons. simpl. f_equal. exact IH.
Qed.

End StrFacts.

(** ** Objects *)

Module JsFacts.
Import Js.

Lemma value_ind' (P : value -> Prop) :
  P VUndefined -> P VNull -> (forall b, P (VBool b)) -> (forall n, P (VNum n)) ->
  (forall s, P (VStr s)) ->
  (forall xs, Forall P xs -> P (VArr xs)) ->
  (forall ps, Forall (fun p => P (snd p)) ps -> P (VObj ps)) ->
  forall v, P v.
Proof.
  intros Hu Hn Hb Hz Hs Ha Ho.
  fix IH 1. intros [| |b|n|s|xs|ps];
    [exact Hu | exact Hn | apply Hb | apply Hz | apply Hs | |].
  - apply Ha. induction xs as [|x xs IHxs]; constructor; [apply IH | exact IHxs].
  - apply Ho. induction ps as [|p ps IHps]; constructor; [apply IH | exact IHps].
Qed.

Lemma nodupb_NoDup (ks : list string) : nodupb ks = true <-> NoDup ks.
Proof.
  induction ks as [|k r IH]; simpl.
  - split; [constructor | reflexivity].
  - rewrite andb_true_iff, negb_true_iff, IH, NoDup_cons. 
    assert (existsb (String.eqb k) r = false <-> k ∉ r) as ->; [|tauto].
    rewrite <- not_true_iff_false, existsb_exists. split.
    + intros H Hin. apply H. exists k. split; [now apply list_elem_of_In | apply String.eqb_refl].
    + intros H [x [Hin Hx]]. apply String.eqb_eq in Hx. subst x. apply H. now apply list_elem_of_In.
Qed.

Lemma obj_set_fresh (k : string) (v : value) (ps : obj) :
  k ∉ keys ps -> obj_set k v ps = (ps ++ [(k, v)])%list.
Proof.
  induction ps as [|[k' v'] r IH]; simpl; intros H; [reflexivity|].
  apply not_elem_of_cons in H as [Hne Hr].
  destruct (String.eqb_spec k k') as [->|_]; [now contradiction Hne|].
  now rewrite IH.
Qed.

Lemma obj_set_at (k : string) (v v0 : value) (a b : obj) :
  k ∉ keys a -> obj_set k v (a ++ (k, v0) :: b)%list = (a ++ (k, v) :: b)%list.
Proof.
  induction a as [|[k' v'] r IH]; simpl; intros H.
  - now rewrite String.eqb_refl.
  - apply not_elem_of_cons in H as [Hne Hr].
    destruct (String.eqb_spec k k') as [->|_]; [now contradiction Hne|].
    now rewrite IH.
Qed.

Lemma keys_obj_set (k : string) (v : value) (ps : obj) :
  keys (obj_set k v ps) = if bool_decide (k ∈ keys ps) then keys ps else (keys ps ++ [k])%list.
Proof.
  induction ps as [|[k' v'] r IH]; simpl.
  - reflexivity.
  - destruct (String.eqb_spec k k') as [->|Hne]; simpl.
    + rewrite bool_decide_eq_true_2; [reflexivity | apply elem_of_cons; now left].
    + rewrite IH. unfold keys. destruct (bool_decide_reflect (k ∈ map fst r)) as [Hin|Hnin].
      * rewrite bool_decide_eq_true_2; [reflexivity | apply elem_of_cons; now right].
      * rewrite bool_decide_eq_false_2; [reflexivity|].
        intros H. apply elem_of_cons in H as [?|?]; congruence.
Qed.

Lemma NoDup_obj_set (k : string) (v : value) (ps : obj) :
  NoDup (keys ps) -> NoDup (keys (obj_set k v ps)).
Proof.
  intros H. rewrite keys_obj_set. case_bool_decide as Hin; [exact H|].
  apply NoDup_app. split; [exact H|]. split.
  - intros x Hx Hk. apply list_elem_of_singleton in Hk. now subst.
  - apply NoDup_singleton.
Qed.

Lemma assign_app (t a b : obj) : assign t (a ++ b)%list = assign (assign t a) b.
Proof. unfold assign. apply fold_left_app. Qed.

Lemma NoDup_assign (src t : obj) : NoDup (keys t) -> NoDup (keys (assign t src)).
Proof.
  revert t. induction src as [|[k v] r IH]; intros t H; simpl; [exact H|].
  apply IH. now apply NoDup_obj_set.
Qed.

(** Defining, one by one, properties that are all new appends them. *)
Lemma assign_fresh (src t : obj) :
  NoDup (keys t ++ keys src) -> assign t src = (t ++ src)%list.
Proof.
  revert t. induction src as [|[k v] r IH]; intros t H; simpl.
  - now rewrite app_nil_r.
  - rewrite obj_set_fresh.
    + change (fold_left _ r ?x) with (assign x r). rewrite IH.
      * now rewrite <- app_assoc.
      * unfold keys in *. rewrite map_app, <- app_assoc. exact H.
    + apply NoDup_app in H as (_ & H & _). intros Hin. apply (H k Hin). simpl. apply elem_of_cons; now left.
Qed.

(** Redefining the properties of an object in their own order changes
    nothing but the values. *)
Lemma assign_over (p a q : obj) :
  keys q = keys p -> NoDup (keys a ++ keys p) -> assign (a ++ q)%list p = (a ++ p)%list.
Proof.
  revert a q. induction p as [|[k v] r IH]; intros a q Hk Hnd.
  - destruct q; [reflexivity | discriminate].
  - destruct q as [|[k0 v0] q]; [discriminate|]. simpl in Hk. injection Hk as -> Hk.
    simpl. rewrite obj_set_at.
    + change (fold_left _ r ?x) with (assign x r).
      replace (a ++ (k, v) :: q)%list with ((a ++ [(k, v)]) ++ q)%list by now rewrite <- app_assoc.
      rewrite IH; [now rewrite <- app_assoc | exact Hk |].
      unfold keys in *. rewrite map_app. simpl. rewrite <- app_assoc. exact Hnd.
    + apply NoDup_app in Hnd as (_ & H & _). intros Hin. apply (H k Hin). simpl. apply elem_of_cons; now left.
Qed.

Lemma keys_assign_prefix (src t : obj) :
  exists extra, keys (assign t src) = (keys t ++ extra)%list.
Proof.
  revert t. induction src as [|[k v] r IH]; intros t; simpl.
  - exists []. now rewrite app_nil_r.
  - change (fold_left _ r ?x) with (assign x r).
    destruct (IH (obj_set k v t)) as [e He]. rewrite He, keys_obj_set.
    case_bool_decide; [now exists e|].
    exists (k :: e). now rewrite <- app_assoc.
Qed.

(** Assigning to an object the properties of one of its own extensions
    gives that extension. *)
Lemma assign_extension (t src : obj) :
  NoDup (keys t) -> assign t (assign t src) = assign t src.
Proof.
  intros Hnd. pose proof (NoDup_assign src t Hnd) as HndM.
  destruct (keys_assign_prefix src t) as [e He].
  set (M := assign t src) in *.
  rewrite <- (take_drop (length t) M).
  assert (Hk : keys (take (length t) M) = keys t).
  { unfold keys in *. rewrite <- List.firstn_map.
    rewrite He, take_app_length'; [reflexivity | now rewrite length_map]. }
  rewrite <- (take_drop (length t) M) in HndM. unfold keys in HndM. rewrite map_app in HndM.
  rewrite assign_app.
  rewrite <- (app_nil_l t) at 1. rewrite (assign_over _ [] t) .
  - simpl. now apply assign_fresh.
  - now rewrite Hk.
  - simpl. now apply NoDup_app in HndM as (? & _).
Qed.

Lemma NoDup_assign_nil (src : obj) : NoDup (keys (assign [] src)).
Proof. apply NoDup_assign. constructor. Qed.

End JsFacts.

(** ** The JSON round trip *)

Module JsonFacts.
Import Js Json StrFacts JsFacts.

Lemma str_app_nil_r (a : string) : a ++ "" = a.
Proof. induction a as [|x a IH]; [reflexivity|]. rewrite str_app_cons. f_equal. exact IH. Qed.

Lemma parse_digits_stop (rest : string) :
  no_digit rest -> parse_digits rest = (Decimal.Nil, rest).
Proof. destruct rest as [|c r]; simpl; [reflexivity|]. now intros ->. Qed.

Lemma parse_digits_print (d : Decimal.uint) (rest : string) :
  no_digit rest -> parse_digits (NilEmpty.string_of_uint d ++ rest) = (d, rest).
Proof.
  intros H. induction d as [|d IH|d IH|d IH|d IH|d IH|d IH|d IH|d IH|d IH|d IH];
    simpl NilEmpty.string_of_uint; rewrite ?str_app_cons, ?str_app_nil_l;
    [now apply parse_digits_stop | simpl; now rewrite IH ..].
Qed.

Lemma nzhead_shape (d : Decimal.uint) :
  match Decimal.nzhead d with Decimal.D0 _ => False | _ => True end.
Proof. induction d; simpl; auto. Qed.

Lemma to_uint_shape (n : N) :
  let d := N.to_uint n in
  NilZero.string_of_uint d = NilEmpty.string_of_uint d /\
  match d with
  | Decimal.Nil => False
  | Decimal.D0 Decimal.Nil => True
  | Decimal.D0 _ => False
  | _ => True
  end.
Proof.
  intros d. assert (Hn : Decimal.unorm d = d).
  { unfold d. rewrite <- (DecimalN.Unsigned.of_to n) at 2. symmetry. apply DecimalN.Unsigned.to_of. }
  unfold Decimal.unorm in Hn. pose proof (nzhead_shape d) as Hs.
  destruct (Decimal.nzhead d) eqn:E; subst d; rewrite <- Hn; simpl; try tauto.
Qed.

Lemma parse_nat_print (n : N) (rest : string) :
  num_tail rest ->
  parse_nat (NilZero.string_of_uint (N.to_uint n) ++ rest) = Some (n, rest).
Proof.
  intros [Hd Hc]. destruct (to_uint_shape n) as [-> Hs].
  unfold parse_nat. rewrite parse_digits_print by exact Hd.
  rewrite <- (DecimalN.Unsigned.of_to n) at 2.
  destruct (N.to_uint n) as [|d|d|d|d|d|d|d|d|d|d]; try contradiction; rewrite Hc; try reflexivity.
  destruct d; try contradiction. reflexivity.
Qed.

Lemma tail_ok_num (rest : string) : tail_ok rest -> num_tail rest.
Proof.
  destruct rest as [|c r]; simpl; [now split|].
  intros [->|[->| ->]]; now split.
Qed.

Lemma parse_number_print (z : Z) (rest : string) :
  num_tail rest -> parse_number (print_Z z ++ rest) = Some (VNum z, rest).
Proof.
  intros H. unfold print_Z. destruct (Z.ltb_spec z 0) as [Hz|Hz].
  - rewrite str_app_cons. unfold parse_number. simpl Ascii.eqb. cbv iota.
    rewrite parse_nat_print by exact H. do 3 f_equal. lia.
  - pose proof (parse_nat_print (Z.abs_N z) rest H) as Hp.
    destruct (to_uint_shape (Z.abs_N z)) as [He Hs]. rewrite He in *.
    assert (Hz' : Z.of_N (Z.abs_N z) = z) by lia.
    destruct (N.to_uint (Z.abs_N z)) as [|d|d|d|d|d|d|d|d|d|d]; try contradiction;
      simpl NilEmpty.string_of_uint in *; rewrite str_app_cons in *;
      unfold parse_number; simpl Ascii.eqb; cbv iota; rewrite Hp, Hz'; reflexivity.
Qed.

(** The number branch is the last of [parse_value]: the text of a number
    starts with none of the characters tested before it. *)
Lemma print_Z_head (z : Z) :
  exists c r, print_Z z = String c r /\
    is_ws c = false /\ (c =? "n")%char = false /\ (c =? "t")%char = false /\
    (c =? "f")%char = false /\ (c =? dquote)%char = false /\
    (c =? "[")%char = false /\ (c =? "{")%char = false /\ (c =? "]")%char = false /\
    (c =? "}")%char = false.
Proof.
  unfold print_Z. destruct (z <? 0)%Z.
  - eexists _, _. split; [reflexivity|]. repeat split.
  - destruct (to_uint_shape (Z.abs_N z)) as [-> Hs].
    destruct (N.to_uint (Z.abs_N z)) as [|d|d|d|d|d|d|d|d|d|d]; try contradiction;
      (eexists _, _; split; [reflexivity|]; repeat split).
Qed.

(** **** Strings *)



Lemma parse_chars_escape (s rest : string) :
  parse_chars (escape_all s ++ String dquote rest) = Some (s, rest).
Proof.
  induction s as [|c s IH]; [reflexivity|].
  simpl escape_all. rewrite str_app_assoc.
  set (tl := escape_all s ++ String dquote rest) in *.
  destruct c as [[] [] [] [] [] [] [] []].
  all: cbv [escape nat_of_ascii Ascii.eqb dquote bslash]; simpl.
  all: rewrite ?str_app_cons, ?str_app_nil_l.
  all: simpl; rewrite IH; reflexivity.
Qed.

Lemma parse_elements_print (xs : list value) :
  Forall parses xs -> xs <> [] ->
  forall fuel rest, (list_sum (map (fun x => S (weight x)) xs) <= fuel)%nat ->
    parse_elements fuel (String.concat "," (map print xs) ++ String "]" rest)
    = Some (xs, rest).
Proof.
  induction 1 as [|x r Hx Hr IH]; [congruence|]. intros _ fuel rest Hf.
  simpl in Hf. destruct fuel as [|f]; [lia|].
  destruct r as [|y r'].
  - simpl String.concat. simpl parse_elements.
    rewrite Hx; [| simpl in Hf; lia | simpl; auto]. reflexivity.
  - change (String.concat "," (map print (x :: y :: r')))
      with (print x ++ "," ++ String.concat "," (map print (y :: r'))).
    rewrite !str_app_assoc, str_app_cons, str_app_nil_l. simpl parse_elements.
    rewrite Hx; [| lia | simpl; auto]. simpl skip_ws. simpl Ascii.eqb. cbv iota.
    rewrite IH; [reflexivity | congruence | lia].
Qed.

Ltac ascii_eqb :=
  repeat match goal with
  | |- context [Ascii.eqb ?a ?b] =>
      let r := eval vm_compute in (Ascii.eqb a b) in
      match r with true => idtac | false => idtac end;
      change (Ascii.eqb a b) with r; cbv iota
  end.

Ltac norm_app :=
  repeat (progress rewrite ?str_app_cons, ?str_app_assoc, ?str_app_nil_l).

Ltac lex := simpl skip_ws; cbv beta iota; ascii_eqb.

Lemma parse_members_print (ps : obj) :
  Forall (fun p => parses (snd p)) ps -> ps <> [] ->
  forall fuel rest acc,
    (list_sum (map (fun p => S (weight (snd p))) ps) <= fuel)%nat ->
    NoDup (keys acc ++ keys ps) ->
    parse_members fuel (String.concat "," (map member_text ps) ++ String "}" rest) acc
    = Some ((acc ++ ps)%list, rest).
Proof.
  induction 1 as [|[k x] r Hx Hr IH]; [congruence|]. intros _ fuel rest acc Hf Hnd.
  simpl in Hf, Hx. destruct fuel as [|f]; [lia|].
  assert (Hk : k ∉ keys acc).
  { apply NoDup_app in Hnd as (_ & H & _). intros Hin. apply (H k Hin). simpl.
    apply elem_of_cons. now left. }
  assert (Hnd' : NoDup (keys (acc ++ [(k, x)])%list ++ keys r)).
  { unfold keys in *. rewrite map_app. simpl. now rewrite <- List.app_assoc. }
  destruct r as [|y r'].
  - simpl String.concat. unfold member_text, quote. simpl fst; simpl snd.
    norm_app.
    simpl parse_members. rewrite parse_chars_escape.
    lex.
    rewrite Hx; [| lia | simpl; auto]. lex.
    now rewrite obj_set_fresh.
  - change (String.concat "," (map member_text ((k, x) :: y :: r')))
      with (member_text (k, x) ++ "," ++ String.concat "," (map member_text (y :: r'))).
    unfold member_text at 1, quote. simpl fst; simpl snd.
    norm_app.
    simpl parse_members. rewrite parse_chars_escape.
    lex.
    rewrite Hx; [| lia | simpl; auto]. lex.
    rewrite obj_set_fresh by exact Hk.
    rewrite IH; [now rewrite <- List.app_assoc | congruence | lia | exact Hnd'].
Qed.

Lemma forallb_Forall_impl {A} (f : A -> bool) (P : A -> Prop) (l : list A) :
  Forall (fun x => f x = true -> P x) l -> forallb f l = true -> Forall P l.
Proof.
  induction 1 as [|x r Hx _ IH]; simpl; [constructor|].
  rewrite andb_true_iff. intros [H1 H2]. constructor; auto.
Qed.

Lemma print_opens (v : value) (rest : string) : opens (print v ++ rest).
Proof.
  destruct v as [| |[]|n|s|xs|ps]; simpl print; unfold quote; norm_app;
    try (eexists _, _; split; [reflexivity|]; repeat split; reflexivity).
  destruct (print_Z_head n) as (c & r & -> & Hws & _ & _ & _ & _ & _ & _ & H1 & H2).
  norm_app. eexists _, _. split; [reflexivity|]. repeat split; auto.
Qed.

Lemma concat_opens (xs : list value) (rest : string) :
  xs <> [] -> opens (String.concat "," (map print xs) ++ rest).
Proof.
  destruct xs as [|x [|y r]]; [congruence | |]; intros _.
  - apply print_opens.
  - change (String.concat "," (map print (x :: y :: r)))
      with (print x ++ "," ++ String.concat "," (map print (y :: r))).
    rewrite str_app_assoc. apply print_opens.
Qed.

Lemma parse_value_array (f : nat) (body : string) :
  opens body ->
  parse_value (S f) (String "[" body) =
  match parse_elements f body with
  | Some (xs, r) => Some (VArr xs, r)
  | None => None
  end.
Proof.
  intros (c & r & -> & Hws & H & _). simpl. now rewrite Hws, H.
Qed.

Lemma parse_value_object (f : nat) (body : string) :
  opens body ->
  parse_value (S f) (String "{" body) =
  match parse_members f body [] with
  | Some (ps, r) => Some (VObj ps, r)
  | None => None
  end.
Proof.
  intros (c & r & -> & Hws & _ & H). simpl. now rewrite Hws, H.
Qed.

Lemma members_opens (ps : obj) (rest : string) :
  ps <> [] -> opens (String.concat "," (map member_text ps) ++ rest).
Proof.
  destruct ps as [|[k x] [|y r]]; [congruence | |]; intros _.
  - simpl. unfold member_text, quote. norm_app.
    eexists _, _. split; [reflexivity|]. repeat split; reflexivity.
  - change (String.concat "," (map member_text ((k, x) :: y :: r)))
      with (member_text (k, x) ++ "," ++ String.concat "," (map member_text (y :: r))).
    unfold member_text at 1, quote. norm_app.
    eexists _, _. split; [reflexivity|]. repeat split; reflexivity.
Qed.

Lemma print_arr (xs : list value) :
  print (VArr xs) = String "[" (String.concat "," (map print xs) ++ "]").
Proof. reflexivity. Qed.

Lemma print_obj (ps : obj) :
  print (VObj ps) = String "{" (String.concat "," (map member_text ps) ++ "}").
Proof. reflexivity. Qed.

Lemma print_parses (v : value) : defined v = true -> wf v = true -> parses v.
Proof.
  induction v as [| |b|n|s|xs IH|ps IH] using value_ind'; intros Hd Hw fuel rest Hf Ht;
    try discriminate Hd; (destruct fuel as [|f]; [simpl in Hf; lia|]).
  - reflexivity.
  - destruct b; reflexivity.
  - destruct (print_Z_head n) as (c & r & He & Hws & H1 & H2 & H3 & H4 & H5 & H6 & _ & _).
    pose proof (parse_number_print n rest (tail_ok_num _ Ht)) as Hp.
    simpl print in *. rewrite He in *. rewrite str_app_cons in *.
    simpl parse_value. rewrite Hws, H1, H2, H3, H4, H5, H6. exact Hp.
  - simpl print. unfold quote. norm_app. simpl parse_value.
    now rewrite parse_chars_escape.
  - simpl in Hd, Hw, Hf.
    assert (Hall : Forall parses xs).
    { apply (forallb_Forall_impl (fun x => defined x && wf x)).
      - eapply Forall_impl; [exact IH|]. intros x Hx H.
        apply andb_true_iff in H as [? ?]. auto.
      - apply forallb_forall. intros x Hin. apply andb_true_iff. split.
        + eapply forallb_forall in Hd; eauto.
        + eapply forallb_forall in Hw; eauto. }
    destruct xs as [|x r]; [reflexivity|].
    rewrite print_arr. norm_app.
    rewrite parse_value_array by (apply concat_opens; congruence).
    rewrite parse_elements_print; [reflexivity | exact Hall | congruence | lia].
  - simpl in Hd, Hw, Hf. apply andb_true_iff in Hw as [Hnd Hw].
    assert (Hall : Forall (fun p => parses (snd p)) ps).
    { apply (forallb_Forall_impl (fun p => defined (snd p) && wf (snd p))).
      - eapply Forall_impl; [exact IH|]. intros x Hx H.
        apply andb_true_iff in H as [? ?]. auto.
      - apply forallb_forall. intros x Hin. apply andb_true_iff. split.
        + eapply forallb_forall in Hd; eauto.
        + eapply forallb_forall in Hw; eauto. }
    destruct ps as [|p r]; [reflexivity|].
    rewrite print_obj. norm_app.
    rewrite parse_value_object by (apply members_opens; congruence).
    rewrite parse_members_print; [reflexivity | exact Hall | congruence | lia |].
    simpl. now apply nodupb_NoDup.
Qed.

Lemma concat_weight {A} (w : A -> nat) (txt : A -> string) (l : list A) :
  Forall (fun x => (w x <= String.length (txt x))%nat) l ->
  (list_sum (map (fun x => S (w x)) l) <= 1 + String.length (String.concat "," (map txt l)))%nat.
Proof.
  induction 1 as [|x r Hx Hr IH]; [simpl; lia|].
  destruct r as [|y r'].
  - simpl. lia.
  - change (String.concat "," (map txt (x :: y :: r')))
      with (txt x ++ "," ++ String.concat "," (map txt (y :: r'))).
    change (list_sum (map (fun x => S (w x)) (x :: y :: r')))
      with (S (w x) + list_sum (map (fun x => S (w x)) (y :: r')))%nat.
    set (tl := String.concat "," (map txt (y :: r'))) in *.
    rewrite !str_app_length. simpl String.length. lia.
Qed.

Lemma weight_le_length (v : value) : (weight v <= String.length (print v))%nat.
Proof.
  induction v as [| |b|n|s|xs IH|ps IH] using value_ind'; try (simpl; lia).
  - destruct b; simpl; lia.
  - destruct (print_Z_head n) as (c & r & He & _). simpl. rewrite He. simpl. lia.
  - rewrite print_arr. simpl String.length. rewrite str_app_length. simpl String.length.
    pose proof (concat_weight weight print xs IH). simpl weight. lia.
  - rewrite print_obj. simpl String.length. rewrite str_app_length. simpl String.length.
    assert (H : Forall (fun p => (weight (snd p) <= String.length (member_text p))%nat) ps).
    { eapply Forall_impl; [exact IH|]. intros [k x] H. unfold member_text.
      rewrite str_app_length. simpl in *. lia. }
    pose proof (concat_weight (fun p => weight (snd p)) member_text ps H). simpl weight. lia.
Qed.

(** Parsing the text of a value gives the value back. *)
Lemma parse_print (v : value) :
  defined v = true -> wf v = true -> parse (print v) = Some v.
Proof.
  intros Hd Hw. unfold parse.
  rewrite <- (str_app_nil_r (print v)) at 2.
  rewrite (print_parses v Hd Hw); [reflexivity | | exact I].
  pose proof (weight_le_length v). lia.
Qed.

Lemma print_nonempty (v : value) : print v <> "".
Proof.
  destruct (print_opens v "") as (c & r & H & _). rewrite str_app_nil_r in H.
  rewrite H. discriminate.
Qed.

(** **** Normalisation *)

Lemma normalize_defined (v : value) : defined (normalize v) = true.
Proof.
  induction v as [| |b|n|s|xs IH|ps IH] using value_ind'; try reflexivity.
  - simpl. induction IH as [|x r Hx _ IHr]; simpl; [reflexivity|]. now rewrite Hx.
  - simpl. induction IH as [|[k x] r Hx _ IHr]; simpl; [reflexivity|].
    destruct (is_undefined x); simpl; [exact IHr|]. simpl in Hx. now rewrite Hx.
Qed.

Lemma normalize_id (v : value) : defined v = true -> normalize v = v.
Proof.
  induction v as [| |b|n|s|xs IH|ps IH] using value_ind'; try reflexivity; try discriminate.
  - simpl. intros Hd. f_equal. induction IH as [|x r Hx _ IHr]; simpl in *; [reflexivity|].
    apply andb_true_iff in Hd as [H1 H2]. now rewrite Hx, IHr.
  - simpl. intros Hd. f_equal. induction IH as [|[k x] r Hx _ IHr]; simpl in *; [reflexivity|].
    apply andb_true_iff in Hd as [H1 H2]. rewrite IHr by exact H2.
    specialize (Hx H1). destruct x; try discriminate; simpl in *; congruence.
Qed.

Lemma normalize_keys_sub (ps : obj) (k : string) :
  k ∈ map fst (flat_map (fun p => if is_undefined (snd p) then []
                                   else [(fst p, normalize (snd p))]) ps) ->
  k ∈ map fst ps.
Proof.
  induction ps as [|[k' x] r IH]; simpl; [auto|].
  destruct (is_undefined x); simpl; rewrite !elem_of_cons; tauto.
Qed.

Lemma normalize_wf (v : value) : wf v = true -> wf (normalize v) = true.
Proof.
  induction v as [| |b|n|s|xs IH|ps IH] using value_ind'; try reflexivity.
  - simpl. intros Hw. induction IH as [|x r Hx _ IHr]; simpl in *; [reflexivity|].
    apply andb_true_iff in Hw as [H1 H2]. now rewrite Hx, IHr.
  - simpl. intros Hw. apply andb_true_iff in Hw as [Hnd Hw]. apply andb_true_iff. split.
    + apply nodupb_NoDup. apply nodupb_NoDup in Hnd. clear IH Hw.
      induction ps as [|[k x] r IHr]; simpl in *; [constructor|].
      apply NoDup_cons in Hnd as [Hk Hr].
      destruct (is_undefined x); simpl; [auto|].
      apply NoDup_cons. split; [|auto]. intros Hin. apply Hk. now apply normalize_keys_sub.
    + clear Hnd. induction IH as [|[k x] r Hx _ IHr]; simpl in *; [reflexivity|].
      apply andb_true_iff in Hw as [H1 H2].
      destruct (is_undefined x); simpl; [auto|]. now rewrite Hx, IHr.
Qed.

(** [JSON.parse(JSON.stringify(v))]. *)
Theorem parse_stringify (v : value) :
  wf v = true -> v <> VUndefined ->
  exists s, stringify v = Some s /\ s <> "" /\ parse s = Some (normalize v).
Proof.
  intros Hw Hv. exists (print (normalize v)). split; [|split].
  - destruct v; try reflexivity. congruence.
  - apply print_nonempty.
  - apply parse_print; [apply normalize_defined | now apply normalize_wf].
Qed.

Lemma good_arr (xs : list value) : Forall good xs -> good (VArr xs).
Proof.
  intros H. split; simpl; apply forallb_forall; intros x Hx;
    apply list_elem_of_In in Hx; rewrite Forall_forall in H; now apply H.
Qed.

Lemma good_obj_value (ps : obj) : good_obj ps -> good (VObj ps).
Proof.
  intros [Hnd H]. rewrite Forall_forall in H. split; simpl.
  - apply forallb_forall. intros x Hx. apply list_elem_of_In in Hx. now apply H.
  - apply andb_true_iff. split; [now apply nodupb_NoDup|].
    apply forallb_forall. intros x Hx. apply list_elem_of_In in Hx. now apply H.
Qed.

Lemma good_obj_set (k : string) (x : value) (ps : obj) :
  good x -> good_obj ps -> good_obj (obj_set k x ps).
Proof.
  intros Hx [Hnd H]. split; [now apply NoDup_obj_set|]. clear Hnd.
  induction H as [|[k' x'] r Hp Hr IH]; simpl.
  - constructor; [exact Hx | constructor].
  - destruct (k =? k')%string; constructor; auto.
Qed.

Ltac split_matches :=
  repeat match goal with
  | |- context [match ?x with _ => _ end] => destruct x eqn:?
  | |- context [if ?x then _ else _] => destruct x eqn:?
  end.

Lemma parser_good (fuel : nat) :
  (forall s v r, parse_value fuel s = Some (v, r) -> good v) /\
  (forall s xs r, parse_elements fuel s = Some (xs, r) -> Forall good xs) /\
  (forall s acc ps r, parse_members fuel s acc = Some (ps, r) -> good_obj acc -> good_obj ps).
Proof.
  induction fuel as [|f (IHv & IHe & IHm)]; [repeat split; discriminate|].
  refine (conj _ (conj _ _)).
  - intros s v r. simpl. split_matches; intros [= <- <-]; try (split; reflexivity);
      try discriminate.
    + eapply good_arr, IHe; eassumption.
    + eapply good_obj_value, IHm; [eassumption|]. split; constructor.
  - intros s xs r. simpl. split_matches; intros [= <- <-]; try discriminate.
    + constructor; [eapply IHv | eapply IHe]; eassumption.
    + constructor; [eapply IHv; eassumption | constructor].
  - intros s acc ps r. simpl. split_matches; try discriminate.
    + intros H Hacc. eapply IHm; [exact H|]. apply good_obj_set; [|exact Hacc].
      eapply IHv; eassumption.
    + intros [= <- <-] Hacc. apply good_obj_set; [|exact Hacc]. eapply IHv; eassumption.
Qed.

Lemma parse_good (s : string) (v : value) : parse s = Some v -> good v.
Proof.
  unfold parse. destruct (parse_value _ s) as [[v' r]|] eqn:E; [|discriminate].
  destruct (skip_ws r); [|discriminate]. intros [= <-].
  eapply (proj1 (parser_good _)); exact E.
Qed.

End JsonFacts.

(** ** The key-value store *)

Module StoreFacts.
Import Js Json App JsFacts JsonFacts.

Lemma getItem_setItem (k v : string) (st st' : LocalStorage.t) :
  LocalStorage.setItem k v st = Some st' -> LocalStorage.getItem k st' = Some v.
Proof.
  unfold LocalStorage.setItem, LocalStorage.getItem.
  destruct (_ <=? _)%N; [|discriminate]. intros [= <-]. simpl. apply lookup_insert_eq.
Qed.

Lemma getItem_setItem_ne (k k' v : string) (st st' : LocalStorage.t) :
  k <> k' -> LocalStorage.setItem k v st = Some st' ->
  LocalStorage.getItem k' st' = LocalStorage.getItem k' st.
Proof.
  unfold LocalStorage.setItem, LocalStorage.getItem. intros Hne.
  destruct (_ <=? _)%N; [|discriminate]. intros [= <-]. simpl. now apply lookup_insert_ne.
Qed.

Lemma serialized_parse (v : value) :
  wf v = true -> v <> VUndefined ->
  serialized v <> "" /\ Json.parse (serialized v) = Some (Json.normalize v).
Proof.
  intros Hw Hv. destruct (parse_stringify v Hw Hv) as (s & Hs & Hne & Hp).
  unfold serialized. rewrite Hs. now split.
Qed.

(** A write the store accepts is read back, up to what [JSON.stringify]
    does to [undefined]. *)
Lemma loadData_saveData (key : string) (val def : value) (st : LocalStorage.t) :
  wf val = true -> val <> VUndefined -> accepts st key val = true ->
  loadData key def (saveData key val st) = Json.normalize val.
Proof.
  intros Hw Hv Hacc. unfold accepts in Hacc.
  destruct (LocalStorage.setItem key (serialized val) st) as [st'|] eqn:Hst; [|discriminate].
  unfold saveData, loadData. rewrite Hst.
  rewrite (getItem_setItem _ _ _ _ Hst).
  destruct (serialized_parse val Hw Hv) as [Hne Hp].
  apply String.eqb_neq in Hne. now rewrite Hne, Hp.
Qed.

(** A write the store refuses leaves it as it was. *)
Lemma saveData_refused (key : string) (val : value) (st : LocalStorage.t) :
  accepts st key val = false -> saveData key val st = st.
Proof.
  unfold accepts, saveData. destruct (LocalStorage.setItem _ _ _); [discriminate|reflexivity].
Qed.

Lemma loadData_saveData_ne (key key' : string) (val def : value) (st : LocalStorage.t) :
  key <> key' -> loadData key' def (saveData key val st) = loadData key' def st.
Proof.
  intros Hne. unfold saveData, loadData.
  destruct (LocalStorage.setItem _ _ _) as [st'|] eqn:E; [|reflexivity].
  now rewrite (getItem_setItem_ne _ _ _ _ _ Hne E).
Qed.

(** What [loadData] returns is the default or a parsed text. *)
Lemma loadData_good (key : string) (def : value) (st : LocalStorage.t) :
  good def -> good (loadData key def st).
Proof.
  intros Hd. unfold loadData. destruct (LocalStorage.getItem key st) as [s|]; [|exact Hd].
  destruct (s =? "")%string; [exact Hd|].
  destruct (Json.parse s) as [v|] eqn:E; [|exact Hd]. now apply parse_good in E.
Qed.

End StoreFacts.

(** ** The flag merge *)

Module Merge.
Import Js App JsFacts.

(** C8. Merging the defaults into an already merged object changes
    nothing: [{ ...defaults, ...{ ...defaults, ...stored } }] is
    [{ ...defaults, ...stored }], property by property and in the same
    order, for every pair of values. *)
Theorem merge_idempotent (defaults stored : value) :
  merge defaults (merge defaults stored) = merge defaults stored.
Proof.
  unfold merge, spread2. f_equal. simpl own_props at 2.
  apply assign_extension, NoDup_assign_nil.
Qed.

End Merge.

(** ** Saving and loading *)

Module RoundTrip.
Import Js Json App Samples JsFacts JsonFacts StoreFacts.


Lemma good_not_undefined (v : value) : good v -> v <> VUndefined.
Proof. intros [Hd _] ->. discriminate. Qed.

Lemma loadData_saveData_good (key : string) (val def : value) (st : LocalStorage.t) :
  good val -> accepts st key val = true ->
  loadData key def (saveData key val st) = val.
Proof.
  intros Hg Hacc. rewrite loadData_saveData; auto.
  - apply normalize_id, Hg.
  - apply Hg.
  - now apply good_not_undefined.
Qed.




End RoundTrip.

(** ** The event logs *)

Module Analytics.
Import Js Json App Samples JsFacts JsonFacts StoreFacts RoundTrip.

Lemma Forall_obj_set (P : value -> Prop) (k : string) (x : value) (ps : obj) :
  P x -> Forall (fun p => P (snd p)) ps -> Forall (fun p => P (snd p)) (obj_set k x ps).
Proof.
  intros Hx H. induction H as [|[k' x'] r Hp Hr IH]; simpl.
  - constructor; [exact Hx | constructor].
  - destruct (k =? k')%string; constructor; auto.
Qed.

Lemma Forall_assign (P : value -> Prop) (src t : obj) :
  Forall (fun p => P (snd p)) src -> Forall (fun p => P (snd p)) t ->
  Forall (fun p => P (snd p)) (assign t src).
Proof.
  intros Hs. revert t. induction Hs as [|[k x] r Hx Hr IH]; intros t Ht; simpl; [exact Ht|].
  apply IH. now apply Forall_obj_set.
Qed.

Lemma wf_obj_intro (ps : obj) :
  NoDup (keys ps) -> Forall (fun p => wf (snd p) = true) ps -> wf (VObj ps) = true.
Proof.
  intros Hnd H. simpl. apply andb_true_iff. split; [now apply nodupb_NoDup|].
  apply forallb_forall. intros p Hp. apply list_elem_of_In in Hp.
  rewrite Forall_forall in H. now apply H.
Qed.

Lemma wf_obj_values (ps : obj) :
  wf (VObj ps) = true -> Forall (fun p => wf (snd p) = true) ps.
Proof.
  simpl. rewrite andb_true_iff. intros [_ H]. apply Forall_forall. intros p Hp.
  apply list_elem_of_In in Hp. eapply forallb_forall in H; eauto.
Qed.


Lemma good_arr_inv (xs : list value) : good (VArr xs) -> Forall good xs.
Proof.
  intros [Hd Hw]. simpl in *. apply Forall_forall. intros x Hx. apply list_elem_of_In in Hx.
  split; [eapply forallb_forall in Hd | eapply forallb_forall in Hw]; eauto.
Qed.

Lemma map_normalize_good (xs : list value) : Forall good xs -> map Json.normalize xs = xs.
Proof.
  induction 1 as [|x r [Hd _] _ IH]; simpl; [reflexivity|]. now rewrite normalize_id, IH.
Qed.

Lemma wf_arr_intro (xs : list value) : Forall (fun x => wf x = true) xs -> wf (VArr xs) = true.
Proof.
  intros H. simpl. apply forallb_forall. intros x Hx. apply list_elem_of_In in Hx.
  rewrite Forall_forall in H. now apply H.
Qed.













End Analytics.

(** ** The user migration *)

Module Migration.
Import Js Json App Samples JsFacts JsonFacts StoreFacts RoundTrip Analytics.

Lemma assoc_obj_set (k : string) (x : value) (ps : obj) : assoc k (obj_set k x ps) = Some x.
Proof.
  induction ps as [|[k' x'] r IH]; simpl.
  - now rewrite String.eqb_refl.
  - destruct (String.eqb_spec k k') as [->|Hne]; simpl.
    + now rewrite String.eqb_refl.
    + apply String.eqb_neq in Hne. now rewrite Hne.
Qed.

Lemma good_indexed (xs : list value) (i : nat) :
  Forall good xs -> Forall (fun p => good (snd p)) (indexed i xs).
Proof. intros H. revert i. induction H; intros i; simpl; constructor; auto. Qed.

Lemma good_chars (s : string) : Forall good (chars s).
Proof. induction s; simpl; constructor; auto. now split. Qed.

Lemma good_obj_inv (ps : obj) : good (VObj ps) -> good_obj ps.
Proof.
  intros [Hd Hw]. simpl in *. apply andb_true_iff in Hw as [Hnd Hw]. split.
  - now apply nodupb_NoDup.
  - apply Forall_forall. intros p Hp. apply list_elem_of_In in Hp.
    split; [eapply forallb_forall in Hd | eapply forallb_forall in Hw]; eauto.
Qed.

Lemma good_own_props (u : value) : good u -> Forall (fun p => good (snd p)) (own_props u).
Proof.
  destruct u; simpl; intros H; try constructor.
  - apply good_indexed, good_chars.
  - now apply good_indexed, good_arr_inv.
  - now apply good_obj_inv.
Qed.

Lemma good_visitor : good ROLES_VISITOR.
Proof. now split. Qed.

Lemma good_with_role (u : value) :
  good u -> good (VObj (obj_set "role" ROLES_VISITOR (assign [] (own_props u)))).
Proof.
  intros H. apply good_obj_value. split.
  - apply NoDup_obj_set, NoDup_assign_nil.
  - apply (Forall_obj_set good); [apply good_visitor|].
    apply (Forall_assign good); [now apply good_own_props | constructor].
Qed.

Lemma get_role (u : value) : nullish u = false -> get u "role" = Some (get_opt u "role").
Proof. destruct u; simpl; intros H; try discriminate; reflexivity. Qed.

Lemma migrate_user_spec (u : value) :
  nullish u = false ->
  exists u', migrate_user u = Some (u', negb (has_role u)) /\ migrated u u' /\ has_role u' = true.
Proof.
  intros Hn. unfold migrate_user, migrated, has_role. rewrite (get_role u Hn).
  destruct (truthy (get_opt u "role")) eqn:E.
  - exists u. repeat split. exact E.
  - eexists. repeat split. simpl. now rewrite assoc_obj_set.
Qed.

Lemma migrate_user_list_spec (users : list value) :
  Forall (fun u => nullish u = false) users ->
  exists updated,
    migrate_user_list users = Some (updated, existsb (fun u => negb (has_role u)) users) /\
    Forall2 migrated users updated /\
    Forall (fun u => has_role u = true) updated.
Proof.
  induction 1 as [|u r Hu _ (upd & Hm & H2 & Hr)].
  - exists []. repeat split; constructor.
  - destruct (migrate_user_spec u Hu) as (u' & Hu' & Hmig & Hrole).
    exists (u' :: upd). simpl. rewrite Hu', Hm. repeat split; constructor; auto.
Qed.

Lemma migrated_good (users updated : list value) :
  Forall good users -> Forall2 migrated users updated -> Forall good updated.
Proof.
  intros Hg H. induction H as [|u u' r r' Hm _ IH]; [constructor|].
  apply Forall_cons in Hg as [Hu Hr]. constructor; [|auto].
  unfold migrated in Hm. destruct (has_role u); subst u'; [exact Hu | now apply good_with_role].
Qed.

Lemma migrated_unchanged (users updated : list value) :
  Forall2 migrated users updated ->
  existsb (fun u => negb (has_role u)) users = false -> updated = users.
Proof.
  induction 1 as [|u u' r r' Hm _ IH]; simpl; [reflexivity|].
  rewrite orb_false_iff, negb_false_iff. intros [Hu Hr].
  unfold migrated in Hm. rewrite Hu in Hm. subst u'. now rewrite IH.
Qed.

(** An object keeps every other property when it is given the role. *)
Lemma spread_object (ps : obj) :
  wf (VObj ps) = true -> assign [] (own_props (VObj ps)) = ps.
Proof.
  simpl. rewrite andb_true_iff. intros [Hnd _]. apply nodupb_NoDup in Hnd.
  now rewrite assign_fresh.
Qed.

(** A record without a role keeps its properties, in their order, and gains
    the role. *)
Lemma migrated_record (ps : obj) (u' : value) :
  wf (VObj ps) = true -> has_role (VObj ps) = false -> migrated (VObj ps) u' ->
  u' = VObj (obj_set "role" ROLES_VISITOR ps).
Proof.
  intros Hw Hr Hm. unfold migrated in Hm. rewrite Hr in Hm.
  now rewrite spread_object in Hm.
Qed.

Lemma stored_users_saveData_ne (k : string) (v : value) (st : LocalStorage.t) :
  k <> USERS_DB_KEY -> stored_users (saveData k v st) = stored_users st.
Proof. intros H. unfold stored_users. now apply loadData_saveData_ne. Qed.

Lemma stored_users_ensure_key (k : string) (v : value) (st : LocalStorage.t) :
  k <> USERS_DB_KEY -> stored_users (ensure_key k v st) = stored_users st.
Proof.
  intros H. unfold ensure_key. destruct (LocalStorage.getItem k st) as [s|].
  - destruct (s =? "")%string; [now apply stored_users_saveData_ne | reflexivity].
  - now apply stored_users_saveData_ne.
Qed.

Lemma stored_users_migrate_flags (st : LocalStorage.t) :
  stored_users (fst (migrate_flags st)) = stored_users st.
Proof.
  unfold migrate_flags. destruct (negb _); simpl; [|reflexivity].
  apply stored_users_saveData_ne. discriminate.
Qed.

Lemma migrate_users_stored (st : LocalStorage.t) (users updated : list value) :
  stored_users st = VArr users ->
  Forall (fun u => nullish u = false) users ->
  Forall2 migrated users updated ->
  exists st', migrate_users st = Done st' /\
    (accepts st USERS_DB_KEY (VArr updated) = true \/ updated = users ->
     stored_users st' = VArr updated) /\
    (accepts st USERS_DB_KEY (VArr updated) = false -> stored_users st' = VArr users).
Proof.
  intros Hs Hn Hm.
  destruct (migrate_user_list_spec users Hn) as (upd & Hl & Hm' & _).
  assert (upd = updated) as ->.
  { clear -Hm Hm'. revert upd Hm'. induction Hm as [|u u' r r' H _ IH]; intros upd Hm'.
    - now inversion Hm'.
    - inversion Hm' as [|? u'' ? r'' H' Hr']; subst. f_equal; [|now apply IH].
      unfold migrated in *. destruct (has_role u); congruence. }
  assert (Hg : Forall good users).
  { apply good_arr_inv. rewrite <- Hs. apply loadData_good. now split. }
  pose proof (migrated_good _ _ Hg Hm) as Hgu.
  unfold migrate_users. unfold stored_users in Hs. rewrite Hs, Hl.
  destruct (existsb _ users) eqn:E.
  - eexists. split; [reflexivity|]. split.
    + intros [Hacc | ->].
      * unfold stored_users. apply loadData_saveData_good; [now apply good_arr | exact Hacc].
      * destruct (accepts st USERS_DB_KEY (VArr users)) eqn:Hacc.
        -- unfold stored_users. apply loadData_saveData_good; [now apply good_arr | exact Hacc].
        -- rewrite saveData_refused by exact Hacc. exact Hs.
    + intros Hacc. rewrite saveData_refused by exact Hacc. exact Hs.
  - pose proof (migrated_unchanged _ _ Hm E) as ->.
    eexists. split; [reflexivity|]. split; intros _; exact Hs.
Qed.

Lemma stored_users_after_steps (st : LocalStorage.t) :
  stored_users
    (ensure_key COMPLIANCE_NOTES_KEY (VObj [])
       (ensure_key FLIGHTS_KEY (VArr [])
          (ensure_key BRAND_LEADS_KEY (VArr [])
             (ensure_key SEASON_KEY season_default st)))) = stored_users st.
Proof. rewrite !stored_users_ensure_key; [reflexivity | discriminate ..]. Qed.

(** C9. The migration gives every user record without a role the role
    VISITOR and leaves the other records as they are; the store holds the
    result whenever it takes the rewritten list. *)
Theorem migration_assigns_roles (st : LocalStorage.t) (users : list value) :
  stored_users st = VArr users ->
  Forall (fun u => u <> VNull) users ->
  exists updated,
    Forall2 migrated users updated /\
    Forall (fun u => has_role u = true) updated /\
    (accepts (fst (migrate_flags st)) USERS_DB_KEY (VArr updated) = true ->
     stored_users (store_of (fst (migrateLocalStorage st))) = VArr updated) /\
    (accepts (fst (migrate_flags st)) USERS_DB_KEY (VArr updated) = false ->
     stored_users (store_of (fst (migrateLocalStorage st))) = VArr users).
Proof.
  intros Hs Hnull.
  assert (Hg : Forall good users).
  { apply good_arr_inv. rewrite <- Hs. apply loadData_good. now split. }
  assert (Hn : Forall (fun u => nullish u = false) users).
  { rewrite Forall_forall in *. intros u Hu. specialize (Hg u Hu). specialize (Hnull u Hu).
    destruct u; try reflexivity; [destruct Hg; discriminate | congruence]. }
  destruct (migrate_user_list_spec users Hn) as (updated & _ & Hm & Hr).
  exists updated. split; [exact Hm|]. split; [exact Hr|].
  assert (Hs1 : stored_users (fst (migrate_flags st)) = VArr users)
    by now rewrite stored_users_migrate_flags.
  destruct (migrate_users_stored _ _ _ Hs1 Hn Hm) as (st2 & Hst2 & Hok & Hko).
  unfold migrateLocalStorage. destruct (migrate_flags st) as [st1 flags]. simpl fst in *.
  rewrite Hst2. simpl. rewrite stored_users_after_steps. split; auto.
Qed.

Lemma migration_assigns_roles_witness :
  stored_users (store_of (fst (migrateLocalStorage (sample_users_store 5000000)))) =
  VArr migrated_sample_users.
Proof.
  destruct (migration_assigns_roles (sample_users_store 5000000) sample_users)
    as (updated & Hm & _ & Hok & _).
  - vm_compute. reflexivity.
  - repeat constructor; discriminate.
  - assert (updated = migrated_sample_users) as ->.
    { inversion Hm as [|? u1 ? r1 H1 Hm1]; subst.
      inversion Hm1 as [|? u2 ? r2 H2 Hm2]; subst.
      inversion Hm2 as [|? u3 ? r3 H3 Hm3]; subst.
      inversion Hm3; subst. vm_compute in H1, H2, H3. now subst. }
    apply Hok. vm_compute. reflexivity.
Defined.

(** A store that is full: the rewritten list does not fit and the record
    without a role stays as it was. *)
Lemma migration_refused_keeps_users :
  let st := sample_users_store 150 in
  stored_users st = VArr sample_users /\
  stored_users (store_of (fst (migrateLocalStorage st))) = VArr sample_users /\
  Exists (fun u => has_role u = false) sample_users.
Proof.
  split; [vm_compute; reflexivity|]. split; [vm_compute; reflexivity|].
  apply Exists_cons_hd. reflexivity.
Qed.

End Migration.

(** ** The visibility gates *)

Module Gates.
Import Js App Samples.

Lemma strict_eq_str (v : value) (s : string) : strict_eq v (VStr s) = true <-> v = VStr s.
Proof.
  destruct v; simpl; try (split; [discriminate | intros [=]]).
  rewrite String.eqb_eq. split; [now intros -> | now intros [= ->]].
Qed.

Lemma get_opt_falsy (v : value) (k : string) : truthy v = false -> get_opt v k = VUndefined.
Proof. destruct v; simpl; try reflexivity. discriminate. Qed.

(** The admin sees the metrics of every asset. *)
Lemma canSeeMetrics_admin (item user : value) : canSeeMetrics true item user = VBool true.
Proof. reflexivity. Qed.

(** A viewer whose organisation is [o] sees the metrics exactly of the
    assets whose [brand.orgId] is [o]. *)
Lemma canSeeMetrics_org (item user : value) (o : string) :
  get_opt (get_opt user "orgContext") "orgId" = VStr o ->
  truthy (canSeeMetrics false item user) = true <->
  get_opt (get_opt item "brand") "orgId" = VStr o.
Proof.
  intros Ho. unfold canSeeMetrics. rewrite Ho.
  destruct (truthy item) eqn:Ei.
  - destruct (truthy (get_opt item "brand")) eqn:Eb.
    + simpl. apply strict_eq_str.
    + rewrite Eb. rewrite (get_opt_falsy _ "orgId" Eb). split; discriminate.
  - rewrite Ei. rewrite (get_opt_falsy _ "brand" Ei). simpl. split; discriminate.
Qed.

(** A viewer without an organisation sees the metrics exactly of the assets
    that carry a brand record without [orgId]. *)
Lemma canSeeMetrics_no_org (item user : value) :
  get_opt (get_opt user "orgContext") "orgId" = VUndefined ->
  truthy (canSeeMetrics false item user) = true <->
  truthy item = true /\ truthy (get_opt item "brand") = true /\
  get_opt (get_opt item "brand") "orgId" = VUndefined.
Proof.
  intros Ho. unfold canSeeMetrics. rewrite Ho.
  destruct (truthy item) eqn:Ei.
  - destruct (truthy (get_opt item "brand")) eqn:Eb.
    + simpl. destruct (get_opt (get_opt item "brand") "orgId"); simpl;
        split; try tauto; try discriminate; intros (_ & _ & [=]).
    + rewrite Eb. split; [discriminate | intros (_ & [=] & _)].
  - rewrite Ei. split; [discriminate | intros ([=] & _)].
Qed.

(** The landing toggle is for admins and organisation accounts only. *)
Lemma landing_toggle_gate (s : Scene) :
  renders s LandingBrandToggle = true ->
  isAdmin s = true \/ accountType (currentUser s) = ACCOUNT_TYPES_ORGANIZATION.
Proof.
  simpl. rewrite !andb_true_iff. unfold canSeeBrandMode. rewrite orb_true_iff.
  intros [_ [H|H]]; [now left | right]. now apply strict_eq_str.
Qed.

(** No gate of [SceneContent] reads [missionsForGuest]. *)
Lemma flag_other (fs : obj) (k k' : string) (v : value) :
  k <> k' -> flag (obj_set k v fs) k' = flag fs k'.
Proof.
  intros Hne. unfold flag. simpl. f_equal. f_equal.
  induction fs as [|[k0 v0] r IH]; simpl.
  - apply String.eqb_neq in Hne. rewrite String.eqb_sym in Hne. now rewrite Hne.
  - destruct (String.eqb_spec k k0) as [->|Hk]; simpl.
    + apply String.eqb_neq in Hne. rewrite String.eqb_sym in Hne. now rewrite Hne.
    + destruct (k' =? k0)%string; [reflexivity | exact IH].
Qed.

Lemma renders_ignores_missionsForGuest (s : Scene) (v : value) (w : Widget) :
  renders (with_flag s "missionsForGuest" v) w = renders s w.
Proof.
  destruct w; simpl; rewrite ?flag_other by discriminate; reflexivity.
Qed.

(** C4. A guest and an individual account in the world are offered the
    Brand Mode button, and the panel opens on a click. *)
Theorem guest_reaches_brand_panel :
  let g := guest_scene DEFAULT_MASTER_FLAGS in
  let i := individual_scene DEFAULT_MASTER_FLAGS in
  canSeeBrandMode (isAdmin g) (currentUser g) = false /\
  renders g BrandModeButton = true /\
  can_fire g ClickBrandModeButton = true /\
  renders (step g ClickBrandModeButton) BrandPreviewPanel = true /\
  canSeeBrandMode (isAdmin i) (currentUser i) = false /\
  renders i BrandModeButton = true /\
  renders (step i ClickBrandModeButton) BrandPreviewPanel = true.
Proof. repeat split. Qed.

(** C5. With [missionsForGuest] switched off a guest still has the
    Missions and Vault buttons, and both modals open. *)
Theorem guest_missions_ignore_flag :
  let g := guest_scene flags_without_guest_missions in
  flag (masterFlags g) "missionsForGuest" = false /\
  renders g MissionsButton = true /\
  renders g VaultButton = true /\
  renders (step g ClickMissions) MissionsModal = true /\
  renders (step g ClickVault) RewardsVaultModal = true.
Proof. repeat split. Qed.

(** C6. A guest and an organisation account both get the progress handle,
    and the drawer opens on a click. *)
Theorem progress_drawer_for_guest_and_org :
  let g := guest_scene DEFAULT_MASTER_FLAGS in
  let o := org_scene DEFAULT_MASTER_FLAGS in
  renders g ProgressHandle = true /\
  renders (step g ClickProgressHandle) ProgressDrawer = true /\
  accountType (currentUser o) = ACCOUNT_TYPES_ORGANIZATION /\
  renders o ProgressHandle = true /\
  renders (step o ClickProgressHandle) ProgressDrawer = true.
Proof. repeat split. Qed.

(** The drawer is gated by the flag and hidden from the admin, whatever
    the account type. *)
Lemma progress_drawer_gate (s : Scene) :
  renders s ProgressDrawer = true <->
  isAdmin s = false /\ flag (masterFlags s) "showCustomerProgressDrawer" = true /\
  showProgressDrawer s = true.
Proof. simpl. rewrite !andb_true_iff, negb_true_iff. tauto. Qed.

End Gates.

(** ** Click-through rates and the brand panel *)

Module Metrics.
Import Js App Samples Gates.








Lemma strict_eq_types (v : value) :
  strict_eq v (VStr "billboard_impression") = true ->
  strict_eq v (VStr "billboard_click") = false.
Proof. destruct v; simpl; try discriminate. intros H. apply String.eqb_eq in H. now subst. Qed.






(** Ten impressions and three clicks read 30.00 (30.0 in the table). *)
Lemma ctr_ten_three :
  (exists k, kpis ten_three = Some k /\ kpi_ctr k = "30.00") /\
  row_ctr row_X = "30.0" /\
  (exists m, metrics (VBool true) ten_three = Some (Some m) /\ ctr m = "30.00").
Proof.
  split; [|split].
  - eexists. split; vm_compute; reflexivity.
  - vm_compute. reflexivity.
  - eexists. split; vm_compute; reflexivity.
Qed.


(** C1. A guest who selects a billboard whose brand record has no [orgId]
    is shown the metric tiles; and the panel as [SceneContent] mounts it
    hides from an organisation the metrics of its own billboard. *)
Theorem guest_sees_unassigned_brand_metrics :
  canSeeMetrics false unassigned_billboard VNull = VBool true /\
  BrandPreviewPanel_kpis false VNull (VStr "BILLBOARD_0")
    (VObj [("BILLBOARD_0", unassigned_billboard)]) empty_store
  = Some (Tiles (mkMetrics 1250 85 "6.80" "4.2s")) /\
  SceneContent_panel_kpis
    (mkScene false org_user DEFAULT_MASTER_FLAGS WORLD true true false false false
       ["BILLBOARD_0"] two_orgs_scene) empty_store
  = Some Confidential.
Proof. repeat split; vm_compute; reflexivity. Qed.


(** Whoever is allowed to see the tiles sees the same tiles: they are a
    function of the whole log. *)
Lemma metrics_same_for_all (can1 can2 : value) (analytics : list value) :
  truthy can1 = true -> truthy can2 = true ->
  metrics can1 analytics = metrics can2 analytics.
Proof. intros H1 H2. unfold metrics. now rewrite H1, H2. Qed.

End Metrics.

(** ** Properties of objects under [JSON.stringify] *)

Module ObjFacts.
Import Js Json App JsFacts JsonFacts StoreFacts RoundTrip Analytics Migration.

Lemma assoc_obj_set_ne (k k' : string) (x : value) (ps : obj) :
  k <> k' -> assoc k' (obj_set k x ps) = assoc k' ps.
Proof.
  intros Hne. induction ps as [|[k0 x0] r IH]; simpl.
  - destruct (String.eqb_spec k' k); congruence.
  - destruct (String.eqb_spec k k0) as [->|Hk]; simpl.
    + destruct (String.eqb_spec k' k0); congruence.
    + now rewrite IH.
Qed.

Lemma get_opt_obj_set (k k' : string) (x : value) (ps : obj) :
  get_opt (VObj (obj_set k x ps)) k' =
  if (k =? k')%string then x else get_opt (VObj ps) k'.
Proof.
  simpl. destruct (String.eqb_spec k k') as [->|Hne].
  - now rewrite assoc_obj_set.
  - now rewrite assoc_obj_set_ne.
Qed.

Lemma assoc_not_in (k : string) (ps : obj) : k ∉ keys ps -> assoc k ps = None.
Proof.
  induction ps as [|[k' x] r IH]; simpl; [reflexivity|]. intros H.
  apply not_elem_of_cons in H as [Hne Hr].
  destruct (String.eqb_spec k k'); [congruence | auto].
Qed.

Lemma assoc_in (k : string) (ps : obj) : k ∈ keys ps -> is_Some (assoc k ps).
Proof.
  induction ps as [|[k' x] r IH]; simpl; intros H.
  - now apply elem_of_nil in H.
  - destruct (String.eqb_spec k k'); [eauto|].
    apply elem_of_cons in H as [H|H]; [congruence | auto].
Qed.

(** The members of the object that [JSON.stringify] writes. *)
Lemma assoc_normalize (k : string) (ps : obj) :
  NoDup (keys ps) ->
  assoc k (flat_map (fun p => if is_undefined (snd p) then []
                              else [(fst p, normalize (snd p))]) ps) =
  match assoc k ps with
  | Some v => if is_undefined v then None else Some (normalize v)
  | None => None
  end.
Proof.
  induction ps as [|[k' x] r IH]; simpl; [reflexivity|]. intros Hnd.
  apply NoDup_cons in Hnd as [Hk Hr].
  destruct (String.eqb_spec k k') as [->|Hne].
  - destruct (is_undefined x) eqn:E; simpl.
    + apply assoc_not_in. intros H. apply Hk. eapply normalize_keys_sub. exact H.
    + now rewrite String.eqb_refl.
  - destruct (is_undefined x); simpl; [now apply IH|].
    apply String.eqb_neq in Hne. rewrite Hne. now apply IH.
Qed.


Lemma get_opt_normalize (k : string) (ps : obj) :
  NoDup (keys ps) ->
  get_opt (normalize (VObj ps)) k =
  if is_undefined (get_opt (VObj ps) k) then VUndefined
  else normalize (get_opt (VObj ps) k).
Proof.
  intros Hnd. simpl. rewrite assoc_normalize by exact Hnd.
  destruct (assoc k ps) as [v|]; simpl; [|reflexivity].
  destruct (is_undefined v); reflexivity.
Qed.

Lemma truthy_get_opt_normalize (k : string) (ps : obj) :
  NoDup (keys ps) ->
  truthy (get_opt (normalize (VObj ps)) k) = truthy (get_opt (VObj ps) k).
Proof.
  intros Hnd. rewrite get_opt_normalize by exact Hnd.
  destruct (get_opt (VObj ps) k); reflexivity.
Qed.

Lemma wf_keys (ps : obj) : wf (VObj ps) = true -> NoDup (keys ps).
Proof. simpl. rewrite andb_true_iff. intros [H _]. now apply nodupb_NoDup. Qed.

Lemma wf_get_opt (v : value) (k : string) : wf v = true -> wf (get_opt v k) = true.
Proof.
  destruct v; simpl; try reflexivity. rewrite andb_true_iff. intros [_ H].
  induction ps as [|[k' x] r IH]; simpl in *; [reflexivity|].
  apply andb_true_iff in H as [Hx Hr].
  destruct (k =? k')%string; [exact Hx | auto].
Qed.

Lemma good_wf (v : value) : good v -> wf v = true.
Proof. now intros [_ H]. Qed.

Lemma Forall_good_wf (xs : list value) : Forall good xs -> Forall (fun x => wf x = true) xs.
Proof. intros H. eapply Forall_impl; [exact H | exact good_wf]. Qed.


Lemma loaded_array_good (key : string) (st : LocalStorage.t) (xs : list value) :
  loadData key (VArr []) st = VArr xs -> Forall good xs.
Proof. intros H. apply good_arr_inv. rewrite <- H. apply loadData_good. now split. Qed.

(** An array of parsed entries with further well-formed ones is read back
    entry by entry. *)
Lemma loadData_saveData_arr (key : string) (xs : list value) (def : value)
    (st : LocalStorage.t) :
  Forall (fun x => wf x = true) xs -> accepts st key (VArr xs) = true ->
  loadData key def (saveData key (VArr xs) st) = VArr (map normalize xs).
Proof.
  intros Hw Hacc. rewrite loadData_saveData; [reflexivity| |discriminate|exact Hacc].
  now apply wf_arr_intro.
Qed.

Lemma getItem_saveData_ne (key key' : string) (val : value) (st : LocalStorage.t) :
  key <> key' ->
  LocalStorage.getItem key' (saveData key val st) = LocalStorage.getItem key' st.
Proof.
  intros Hne. unfold saveData.
  destruct (LocalStorage.setItem _ _ _) as [st'|] eqn:E; [|reflexivity].
  now apply (getItem_setItem_ne _ _ _ _ _ Hne E).
Qed.

Lemma loadData_ext (key : string) (def : value) (st st' : LocalStorage.t) :
  LocalStorage.getItem key st' = LocalStorage.getItem key st ->
  loadData key def st' = loadData key def st.
Proof. intros H. unfold loadData. now rewrite H. Qed.

End ObjFacts.

(** ** More on saving and loading *)

Module Persistence.
Import Js Json App Samples JsFacts JsonFacts StoreFacts RoundTrip Analytics ObjFacts.





End Persistence.

(** ** The audit log *)

Module Audit.
Import Js Json App Samples JsFacts JsonFacts StoreFacts RoundTrip Analytics ObjFacts.

Lemma map_removelast {A B} (f : A -> B) (l : list A) :
  map f (removelast l) = removelast (map f l).
Proof.
  induction l as [|x [|y r] IH]; simpl in *; [reflexivity | reflexivity |].
  now rewrite IH.
Qed.

Lemma length_removelast {A} (l : list A) : length (removelast l) = pred (length l).
Proof.
  induction l as [|x [|y r] IH]; simpl in *; [reflexivity | reflexivity |].
  now rewrite IH.
Qed.

Lemma Forall_removelast {A} (P : A -> Prop) (l : list A) :
  Forall P l -> Forall P (removelast l).
Proof.
  induction 1 as [|x [|y r] Hx Hr IH]; simpl in *; constructor; auto.
Qed.

Lemma unshift_capped_room (logs : list value) (entry : value) :
  (length logs < 500)%nat -> unshift_capped logs entry = entry :: logs.
Proof.
  intros H. unfold unshift_capped. simpl length.
  destruct (Nat.ltb_spec 500 (S (length logs))); [lia | reflexivity].
Qed.

Lemma unshift_capped_full (logs : list value) (entry : value) :
  length logs = 500%nat -> unshift_capped logs entry = entry :: removelast logs.
Proof.
  intros H. unfold unshift_capped. simpl length.
  destruct (Nat.ltb_spec 500 (S (length logs))); [|lia].
  destruct logs; [discriminate | reflexivity].
Qed.

Lemma length_unshift_capped (logs : list value) (entry : value) :
  (length logs <= 500 -> length (unshift_capped logs entry) <= 500)%nat.
Proof.
  intros H. destruct (Nat.eq_dec (length logs) 500) as [E|E].
  - rewrite unshift_capped_full by exact E. simpl. rewrite length_removelast. lia.
  - rewrite unshift_capped_room by lia. simpl. lia.
Qed.

Lemma map_unshift_capped (f : value -> value) (logs : list value) (entry : value) :
  map f (unshift_capped logs entry) = unshift_capped (map f logs) (f entry).
Proof.
  unfold unshift_capped. simpl length. rewrite length_map.
  destruct (_ <? _)%nat; [|reflexivity]. now rewrite map_removelast.
Qed.

Lemma Forall_unshift_capped (P : value -> Prop) (logs : list value) (entry : value) :
  Forall P logs -> P entry -> Forall P (unshift_capped logs entry).
Proof.
  intros Hl He. unfold unshift_capped.
  destruct (_ <? _)%nat; [apply Forall_removelast|]; now constructor.
Qed.

Lemma wf_admin_entry (action now : string) (payload : value) :
  wf payload = true -> wf (admin_entry action now payload) = true.
Proof.
  intros Hw. unfold admin_entry, js_or. simpl.
  destruct (truthy payload); [now rewrite Hw | reflexivity].
Qed.

(** The audit log after the write of [logAdmin]. *)
Lemma admin_log_after_write (logs : list value) (entry : value) (st : LocalStorage.t) :
  admin_log st = VArr logs -> wf entry = true ->
  admin_log (saveData ADMIN_LOGS_KEY (VArr (unshift_capped logs entry)) st) =
  if accepts st ADMIN_LOGS_KEY (VArr (unshift_capped logs entry))
  then VArr (unshift_capped logs (normalize entry))
  else VArr logs.
Proof.
  intros Hl He.
  pose proof (loaded_array_good _ _ _ Hl) as Hg.
  destruct (accepts _ _ _) eqn:Hacc.
  - unfold admin_log. rewrite loadData_saveData_arr; [| |exact Hacc].
    + now rewrite map_unshift_capped, map_normalize_good.
    + apply Forall_unshift_capped; [now apply Forall_good_wf | exact He].
  - now rewrite saveData_refused.
Qed.

Lemma logAdmin_enabled (action : string) (payload : value) (now : string)
    (st : LocalStorage.t) (logs : list value) :
  truthy (get_opt (loadData MASTER_FLAGS_KEY (VObj DEFAULT_MASTER_FLAGS) st) "enableAuditLog")
  = true ->
  admin_log st = VArr logs ->
  logAdmin action payload now st =
  Done (saveData ADMIN_LOGS_KEY (VArr (unshift_capped logs (admin_entry action now payload))) st).
Proof.
  intros Hf Hl. unfold logAdmin. unfold admin_log in Hl. rewrite Hl.
  destruct (loadData MASTER_FLAGS_KEY _ st); simpl in *; try discriminate.
  now rewrite Hf.
Qed.

Lemma logAdmin_disabled (action : string) (payload : value) (now : string)
    (st : LocalStorage.t) (ps : obj) :
  loadData MASTER_FLAGS_KEY (VObj DEFAULT_MASTER_FLAGS) st = VObj ps ->
  flag ps "enableAuditLog" = false ->
  logAdmin action payload now st = Done st.
Proof.
  intros Hl Hf. unfold logAdmin. rewrite Hl. unfold flag in Hf. simpl in *. now rewrite Hf.
Qed.

(** [logAdmin] writes the audit log and nothing else. *)
Lemma getItem_logAdmin (k action : string) (payload : value) (now : string)
    (st : LocalStorage.t) :
  k <> ADMIN_LOGS_KEY ->
  LocalStorage.getItem k (store_of (logAdmin action payload now st)) = LocalStorage.getItem k st.
Proof.
  intros Hk. unfold logAdmin.
  destruct (get _ _) as [enabled|]; [|reflexivity].
  destruct (negb _); [reflexivity|].
  destruct (loadData ADMIN_LOGS_KEY _ _); try reflexivity.
  simpl. apply getItem_saveData_ne. congruence.
Qed.

(** X3. With the audit log enabled in the stored flags, [logAdmin] puts the
    new entry first, drops the oldest entry of a log of 500, and so keeps
    the log within 500 entries; a write the store refuses leaves the log as
    it was. *)
Theorem audit_log_capped (action : string) (payload : value) (now : string)
    (st : LocalStorage.t) (logs : list value) :
  wf payload = true ->
  truthy (get_opt (loadData MASTER_FLAGS_KEY (VObj DEFAULT_MASTER_FLAGS) st) "enableAuditLog")
  = true ->
  admin_log st = VArr logs ->
  (length logs <= 500)%nat ->
  let entry := admin_entry action now payload in
  let written := VArr (unshift_capped logs entry) in
  let st' := store_of (logAdmin action payload now st) in
  (array_length (admin_log st') <= 500)%nat /\
  (accepts st ADMIN_LOGS_KEY written = true ->
   admin_log st' =
   VArr (normalize entry :: (if (length logs =? 500)%nat then removelast logs else logs))) /\
  (accepts st ADMIN_LOGS_KEY written = false -> admin_log st' = VArr logs).
Proof.
  intros Hw Hf Hl Hlen entry written st'.
  assert (Ha : admin_log st' =
               if accepts st ADMIN_LOGS_KEY written
               then VArr (unshift_capped logs (normalize entry)) else VArr logs).
  { unfold st'. rewrite (logAdmin_enabled _ _ _ _ _ Hf Hl). simpl store_of.
    apply admin_log_after_write; [exact Hl | now apply wf_admin_entry]. }
  split; [|split].
  - rewrite Ha. destruct (accepts _ _ _); simpl; [now apply length_unshift_capped | exact Hlen].
  - intros Hacc. rewrite Ha, Hacc. f_equal.
    destruct (Nat.eqb_spec (length logs) 500) as [E|E].
    + now apply unshift_capped_full.
    + apply unshift_capped_room. lia.
  - intros Hacc. now rewrite Ha, Hacc.
Qed.

Lemma audit_log_capped_witness :
  admin_log (store_of (logAdmin "save_scene" VUndefined "2026-01-01T00:00:00.000Z"
                         audited_store))
  = VArr [audit_sample; audit_sample; audit_sample].
Proof.
  destruct (audit_log_capped "save_scene" VUndefined "2026-01-01T00:00:00.000Z"
              audited_store [audit_sample; audit_sample]) as (_ & H & _).
  - reflexivity.
  - vm_compute. reflexivity.
  - vm_compute. reflexivity.
  - simpl. lia.
  - rewrite H by (vm_compute; reflexivity). reflexivity.
Defined.

(** X4. [handleSave] consults the flags it has just written: once the store
    has taken them, the audit entry [save_scene] is added exactly when
    these flags enable the audit log, whatever the store said before. *)
Theorem save_scene_audit (s : Scene) (now : string) (st : LocalStorage.t)
    (logs : list value) :
  wf (VObj (masterFlags s)) = true ->
  admin_log st = VArr logs ->
  let st1 := saveData STORAGE_KEY (sceneData s) st in
  let st2 := saveData MASTER_FLAGS_KEY (VObj (masterFlags s)) st1 in
  accepts st1 MASTER_FLAGS_KEY (VObj (masterFlags s)) = true ->
  handleSave s now st =
  Done (if flag (masterFlags s) "enableAuditLog"
        then saveData ADMIN_LOGS_KEY
               (VArr (unshift_capped logs (admin_entry "save_scene" now (VObj [])))) st2
        else st2).
Proof.
  intros Hw Hl st1 st2 Hacc.
  assert (Hfl : loadData MASTER_FLAGS_KEY (VObj DEFAULT_MASTER_FLAGS) st2 =
                normalize (VObj (masterFlags s))).
  { unfold st2. apply loadData_saveData; [exact Hw | discriminate | exact Hacc]. }
  assert (Hl2 : admin_log st2 = VArr logs).
  { unfold admin_log, st2, st1. rewrite !loadData_saveData_ne by discriminate. exact Hl. }
  assert (Ht : truthy (get_opt (normalize (VObj (masterFlags s))) "enableAuditLog") =
               flag (masterFlags s) "enableAuditLog").
  { apply truthy_get_opt_normalize. now apply wf_keys. }
  unfold handleSave. fold st1. fold st2.
  destruct (flag (masterFlags s) "enableAuditLog") eqn:Hf.
  - apply logAdmin_enabled; [|exact Hl2]. now rewrite Hfl, Ht.
  - simpl normalize in Hfl. eapply logAdmin_disabled; [exact Hfl|].
    unfold flag. simpl normalize in Ht. exact Ht.
Qed.

Lemma save_scene_audit_witness :
  handleSave (admin_scene flags_without_audit) "2026-01-01T00:00:00.000Z" audited_store =
  Done (saveData MASTER_FLAGS_KEY (VObj flags_without_audit)
          (saveData STORAGE_KEY (sceneData (admin_scene flags_without_audit)) audited_store)).
Proof.
  rewrite (save_scene_audit (admin_scene flags_without_audit) "2026-01-01T00:00:00.000Z"
             audited_store [audit_sample; audit_sample]).
  - reflexivity.
  - vm_compute. reflexivity.
  - vm_compute. reflexivity.
  - vm_compute. reflexivity.
Defined.

End Audit.

(** ** What [logEvent] leaves alone *)

Module Events.
Import Js Json App Samples JsFacts JsonFacts StoreFacts RoundTrip Analytics ObjFacts.

(** X5. [logEvent] writes the analytics log and, for an event that carries
    a campaign or a sponsor, the campaign log; every other key of the store,
    and the campaign log on an event without either, stays as it was. *)
Theorem logEvent_touches_its_logs (type : string) (payload : obj) (now : string)
    (st : LocalStorage.t) (k : string) :
  k <> KEYS_ANALYTICS ->
  k <> KEYS_EVENTS_LOG \/ tagged payload = false ->
  LocalStorage.getItem k (store_of (logEvent type payload now st)) = LocalStorage.getItem k st.
Proof.
  intros Ha He. unfold logEvent.
  destruct (loadData KEYS_ANALYTICS _ st); try reflexivity.
  destruct (tagged payload) eqn:Ht.
  - destruct He as [He|He]; [|discriminate].
    destruct (loadData KEYS_EVENTS_LOG _ _); simpl;
      rewrite ?getItem_saveData_ne by congruence; reflexivity.
  - simpl. apply getItem_saveData_ne. congruence.
Qed.

Lemma logEvent_touches_its_logs_witness :
  LocalStorage.getItem KEYS_EVENTS_LOG
    (store_of (logEvent "enter_world" [] "2026-01-02T00:00:00.000Z" full_store)) =
  LocalStorage.getItem KEYS_EVENTS_LOG full_store.
Proof.
  apply (logEvent_touches_its_logs "enter_world" [] "2026-01-02T00:00:00.000Z" full_store
           KEYS_EVENTS_LOG).
  - discriminate.
  - right. reflexivity.
Defined.

End Events.

(** ** The steps of the migration *)

Module MigrationSteps.
Import Js Json App Samples JsFacts JsonFacts StoreFacts RoundTrip Analytics Migration ObjFacts.

Lemma print_inj (a b : value) : good a -> good b -> print a = print b -> a = b.
Proof.
  intros [Hda Hwa] [Hdb Hwb] H.
  pose proof (parse_print a Hda Hwa) as Ha. rewrite H, (parse_print b Hdb Hwb) in Ha.
  congruence.
Qed.

Lemma stringify_good (v : value) : good v -> stringify v = Some (print v).
Proof.
  intros [Hd Hw]. destruct v; try reflexivity; [discriminate | |];
    unfold stringify; now rewrite normalize_id.
Qed.

Lemma stringify_inj (a b : value) : good a -> good b -> stringify a = stringify b -> a = b.
Proof.
  intros Ha Hb H. rewrite !stringify_good in H by assumption.
  apply print_inj; congruence.
Qed.

Lemma good_default_flags : good (VObj DEFAULT_MASTER_FLAGS).
Proof. split; reflexivity. Qed.

Lemma good_merge (defaults stored : value) :
  good defaults -> good stored -> good (merge defaults stored).
Proof.
  intros Hd Hs. unfold merge, spread2. apply good_obj_value. split.
  - apply NoDup_assign, NoDup_assign_nil.
  - apply (Forall_assign good); [now apply good_own_props|].
    apply (Forall_assign good); [now apply good_own_props | constructor].
Qed.

Lemma assoc_assign (k : string) (src t : obj) :
  NoDup (keys src) ->
  assoc k (assign t src) =
  match assoc k src with Some v => Some v | None => assoc k t end.
Proof.
  revert t. induction src as [|[k' x] r IH]; intros t Hnd; [reflexivity|].
  apply NoDup_cons in Hnd as [Hk Hr]. simpl in Hk.
  change (assign t ((k', x) :: r)) with (assign (obj_set k' x t) r).
  rewrite IH by exact Hr. simpl assoc.
  destruct (String.eqb_spec k k') as [->|Hne].
  - rewrite (assoc_not_in _ _ Hk). simpl. apply assoc_obj_set.
  - destruct (assoc k r); [reflexivity|]. simpl. apply assoc_obj_set_ne. congruence.
Qed.

(** The store after the flag step, when the step has something to write and
    the store takes it, and when it has nothing to write. *)
Lemma migrate_flags_stored (st : LocalStorage.t) :
  let current := loadData MASTER_FLAGS_KEY (VObj []) st in
  let merged := merge (VObj DEFAULT_MASTER_FLAGS) current in
  accepts st MASTER_FLAGS_KEY merged = true ->
  loadData MASTER_FLAGS_KEY (VObj []) (fst (migrate_flags st)) = merged.
Proof.
  intros current merged Hacc.
  assert (Hc : good current) by (apply loadData_good; now split).
  assert (Hm : good merged) by (apply good_merge; [apply good_default_flags | exact Hc]).
  unfold migrate_flags. fold current. fold merged.
  destruct (bool_decide (stringify merged = stringify current)) eqn:E; simpl.
  - apply bool_decide_eq_true in E. symmetry. now apply stringify_inj.
  - now apply loadData_saveData_good.
Qed.

(** X6. After the flag step of the migration, the stored flags hold every
    default flag; a flag the store already had keeps its stored value, and
    every other flag has its default. *)
Theorem migrated_flags_complete (st : LocalStorage.t) (ps : obj) :
  loadData MASTER_FLAGS_KEY (VObj []) st = VObj ps ->
  accepts st MASTER_FLAGS_KEY (merge (VObj DEFAULT_MASTER_FLAGS) (VObj ps)) = true ->
  exists qs,
    loadData MASTER_FLAGS_KEY (VObj []) (fst (migrate_flags st)) = VObj qs /\
    (forall k, k ∈ keys DEFAULT_MASTER_FLAGS -> k ∈ keys qs) /\
    (forall k, k ∈ keys ps -> assoc k qs = assoc k ps) /\
    (forall k, k ∉ keys ps -> assoc k qs = assoc k DEFAULT_MASTER_FLAGS).
Proof.
  intros Hl Hacc.
  assert (Hnd : NoDup (keys ps)).
  { apply wf_keys, good_wf. rewrite <- Hl. apply loadData_good. now split. }
  exists (assign DEFAULT_MASTER_FLAGS ps). split; [|split; [|split]].
  - rewrite <- Hl in Hacc. rewrite (migrate_flags_stored st Hacc), Hl. reflexivity.
  - intros k Hk. destruct (keys_assign_prefix ps DEFAULT_MASTER_FLAGS) as [extra ->].
    apply elem_of_app. now left.
  - intros k Hk. rewrite assoc_assign by exact Hnd.
    destruct (assoc_in _ _ Hk) as [v ->]. reflexivity.
  - intros k Hk. rewrite assoc_assign by exact Hnd. now rewrite (assoc_not_in _ _ Hk).
Qed.

Lemma migrated_flags_complete_witness :
  exists qs,
    loadData MASTER_FLAGS_KEY (VObj []) (fst (migrate_flags old_store)) = VObj qs /\
    assoc "showChat" qs = Some (VBool false) /\
    assoc "enableAuditLog" qs = Some (VBool true) /\
    assoc "legacyFlag" qs = Some (VBool true).
Proof.
  destruct (migrated_flags_complete old_store old_flags) as (qs & Hq & _ & Hs & Hd).
  - vm_compute. reflexivity.
  - vm_compute. reflexivity.
  - exists qs. split; [exact Hq|]. split; [|split].
    + rewrite Hs; [reflexivity|]. apply elem_of_cons. now left.
    + rewrite Hd; [reflexivity|]. apply (bool_decide_unpack _). vm_compute. exact I.
    + rewrite Hs; [reflexivity|]. apply elem_of_cons. right. apply elem_of_cons. now left.
Defined.

(** X7. The flag step settles: run again on the store it has left, it
    finds nothing to write and hands no flags to the scene. *)
Theorem migrate_flags_settles (st : LocalStorage.t) :
  accepts st MASTER_FLAGS_KEY
    (merge (VObj DEFAULT_MASTER_FLAGS) (loadData MASTER_FLAGS_KEY (VObj []) st)) = true ->
  migrate_flags (fst (migrate_flags st)) = (fst (migrate_flags st), None).
Proof.
  intros Hacc. pose proof (migrate_flags_stored st Hacc) as Hl.
  set (st1 := fst (migrate_flags st)) in *.
  unfold migrate_flags at 1. rewrite Hl.
  set (merged := merge (VObj DEFAULT_MASTER_FLAGS) (loadData MASTER_FLAGS_KEY (VObj []) st)).
  assert (Hm : merge (VObj DEFAULT_MASTER_FLAGS) merged = merged).
  { unfold merged, merge, spread2. f_equal. simpl own_props at 2.
    apply assign_extension, NoDup_assign_nil. }
  rewrite Hm. rewrite bool_decide_eq_true_2 by reflexivity. reflexivity.
Qed.

Lemma migrate_flags_settles_witness :
  migrate_flags (fst (migrate_flags old_store)) = (fst (migrate_flags old_store), None).
Proof.
  apply (migrate_flags_settles old_store). vm_compute. reflexivity.
Defined.

Lemma getItem_ensure_key (k k' s : string) (v : value) (st : LocalStorage.t) :
  LocalStorage.getItem k st = Some s -> s <> "" ->
  LocalStorage.getItem k (ensure_key k' v st) = Some s.
Proof.
  intros Hk Hs. unfold ensure_key.
  destruct (String.eqb_spec k' k) as [->|Hne].
  - rewrite Hk. apply String.eqb_neq in Hs. now rewrite Hs.
  - destruct (LocalStorage.getItem k' st) as [s'|];
      [destruct (s' =? "")%string|]; rewrite ?getItem_saveData_ne by exact Hne; exact Hk.
Qed.

(** X8. The migration rewrites the flags and the user list only: every
    other key that holds a text other than the empty one keeps it; the
    season, the leads, the flights and the compliance notes are never
    overwritten. *)
Theorem migration_keeps_records (st : LocalStorage.t) (k s : string) :
  k <> MASTER_FLAGS_KEY -> k <> USERS_DB_KEY ->
  LocalStorage.getItem k st = Some s -> s <> "" ->
  LocalStorage.getItem k (store_of (fst (migrateLocalStorage st))) = Some s.
Proof.
  intros Hf Hu Hk Hs. unfold migrateLocalStorage.
  assert (H1 : LocalStorage.getItem k (fst (migrate_flags st)) = Some s).
  { unfold migrate_flags. destruct (negb _); simpl; [|exact Hk].
    rewrite getItem_saveData_ne by congruence. exact Hk. }
  destruct (migrate_flags st) as [st1 flags]. simpl fst in H1.
  assert (H2 : LocalStorage.getItem k (store_of (migrate_users st1)) = Some s).
  { unfold migrate_users. destruct (loadData USERS_DB_KEY _ st1); try exact H1.
    destruct (migrate_user_list xs) as [[updated []]|]; simpl; try exact H1.
    rewrite getItem_saveData_ne by congruence. exact H1. }
  destruct (migrate_users st1) as [st2|st2]; simpl in *; [|exact H2].
  now repeat apply getItem_ensure_key.
Qed.

Lemma migration_keeps_records_witness :
  LocalStorage.getItem SEASON_KEY (store_of (fst (migrateLocalStorage old_store))) =
  Some (serialized (VObj [("seasonId", VStr "S0")])).
Proof.
  apply (migration_keeps_records old_store SEASON_KEY).
  - discriminate.
  - discriminate.
  - vm_compute. reflexivity.
  - vm_compute. discriminate.
Defined.

Lemma migrate_user_list_nullish (users updated : list value) (changed : bool) :
  migrate_user_list users = Some (updated, changed) ->
  Forall (fun u => nullish u = false) users.
Proof.
  revert updated changed. induction users as [|u r IH]; simpl; intros updated changed;
    [constructor|].
  unfold migrate_user at 1. destruct (get u "role") as [v|] eqn:E; [|discriminate].
  destruct (migrate_user_list r) as [[r' c']|]; [|destruct (truthy v); discriminate].
  intros _. constructor; [|now apply (IH r' c')].
  destruct u; simpl in *; try discriminate; reflexivity.
Qed.

Lemma migrate_user_list_settled (users : list value) :
  Forall (fun u => has_role u = true) users ->
  migrate_user_list users = Some (users, false).
Proof.
  induction 1 as [|u r Hu _ IH]; simpl; [reflexivity|]. rewrite IH.
  unfold migrate_user. unfold has_role in Hu.
  destruct u; simpl in *; try discriminate; now rewrite Hu.
Qed.

(** X9. The user step settles: after a run whose rewritten list the store
    has taken, every stored user has a role and a second run writes
    nothing. *)
Theorem migrate_users_settles (st : LocalStorage.t) (users updated : list value)
    (changed : bool) :
  stored_users st = VArr users ->
  migrate_user_list users = Some (updated, changed) ->
  accepts st USERS_DB_KEY (VArr updated) = true ->
  exists st',
    migrate_users st = Done st' /\
    stored_users st' = VArr updated /\
    Forall (fun u => has_role u = true) updated /\
    migrate_users st' = Done st'.
Proof.
  intros Hs Hl Hacc.
  pose proof (migrate_user_list_nullish _ _ _ Hl) as Hn.
  destruct (migrate_user_list_spec users Hn) as (upd & Hl' & Hm & Hr).
  rewrite Hl in Hl'. injection Hl' as <- _.
  destruct (migrate_users_stored _ _ _ Hs Hn Hm) as (st' & Hd & Hok & _).
  exists st'. split; [exact Hd|]. split; [auto|]. split; [exact Hr|].
  unfold migrate_users. unfold stored_users in Hok. rewrite Hok by auto.
  now rewrite (migrate_user_list_settled _ Hr).
Qed.

Lemma migrate_users_settles_witness :
  exists st',
    migrate_users (sample_users_store 5000000) = Done st' /\
    stored_users st' = VArr migrated_sample_users /\
    Forall (fun u => has_role u = true) migrated_sample_users /\
    migrate_users st' = Done st'.
Proof.
  apply (migrate_users_settles (sample_users_store 5000000) sample_users
           migrated_sample_users true); vm_compute; reflexivity.
Defined.

End MigrationSteps.

(** ** Accounts *)

Module Accounts.
Import Js Json App Samples.
Import JsFacts JsonFacts StoreFacts RoundTrip Analytics Migration Gates ObjFacts Audit.

(** *** [find] *)

Lemma find_value_none (pred : value -> option bool) (xs : list value) :
  Forall (fun x => pred x = Some false) xs -> find_value pred xs = Some VUndefined.
Proof. induction 1 as [|x r Hx _ IH]; simpl; [reflexivity | now rewrite Hx]. Qed.

Lemma find_value_app (pred : value -> option bool) (pre l : list value) :
  Forall (fun x => pred x = Some false) pre ->
  find_value pred (pre ++ l) = find_value pred l.
Proof. induction 1 as [|x r Hx _ IH]; simpl; [reflexivity | now rewrite Hx]. Qed.

Lemma find_value_inv (pred : value -> option bool) (xs : list value) (r : value) :
  find_value pred xs = Some r ->
  (r = VUndefined /\ Forall (fun x => pred x = Some false) xs) \/
  (exists pre post, xs = (pre ++ r :: post)%list /\
     Forall (fun x => pred x = Some false) pre /\ pred r = Some true).
Proof.
  induction xs as [|x xs IH]; simpl.
  - intros [= <-]. left. split; [reflexivity | constructor].
  - destruct (pred x) as [[]|] eqn:E; [| |discriminate].
    + intros [= <-]. right. exists [], xs. repeat split; [constructor | exact E].
    + intros H. destruct (IH H) as [[-> Hall] | (pre & post & -> & Hpre & Hr)].
      * left. split; [reflexivity | now constructor].
      * right. exists (x :: pre), post. repeat split; [now constructor | exact Hr].
Qed.

(** *** Reading the fields of a record *)

Lemma get_inv (u v : value) (k : string) :
  get u k = Some v -> v = get_opt u k /\ nullish u = false.
Proof. destruct u; simpl; intros [= <-]; split; reflexivity. Qed.

Lemma get_some (u : value) (k : string) :
  nullish u = false -> get u k = Some (get_opt u k).
Proof. destruct u; simpl; intros H; try discriminate; reflexivity. Qed.

Lemma get_opt_str (u : value) (k s : string) :
  get_opt u k = VStr s -> exists ps, u = VObj ps.
Proof. destruct u; simpl; try discriminate. eauto. Qed.

Lemma email_is_true (e : string) (u : value) :
  email_is (VStr e) u = Some true <-> get_opt u "email" = VStr e.
Proof.
  unfold email_is. split.
  - destruct (get u "email") as [v|] eqn:E; [|discriminate].
    apply get_inv in E as [-> _]. intros [= H]. now apply strict_eq_str.
  - intros H. destruct (get_opt_str _ _ _ H) as [ps ->].
    rewrite get_some by reflexivity. rewrite H. simpl. now rewrite String.eqb_refl.
Qed.

Lemma email_is_false (e : string) (u : value) :
  email_is (VStr e) u = Some false <-> nullish u = false /\ get_opt u "email" <> VStr e.
Proof.
  unfold email_is. split.
  - destruct (get u "email") as [v|] eqn:E; [|discriminate].
    apply get_inv in E as [-> Hn]. intros [= H]. split; [exact Hn|].
    intros H'. apply strict_eq_str in H'. congruence.
  - intros [Hn H]. rewrite get_some by exact Hn. f_equal.
    destruct (strict_eq _ _) eqn:E; [|reflexivity]. now apply strict_eq_str in E.
Qed.

Lemma credentials_match_true (e p : string) (u : value) :
  credentials_match e p u = Some true <->
  get_opt u "email" = VStr e /\ get_opt u "password" = VStr p.
Proof.
  unfold credentials_match. split.
  - destruct (get u "email") as [v|] eqn:E; [|discriminate].
    apply get_inv in E as [-> Hn]. rewrite (get_some _ _ Hn).
    destruct (strict_eq (get_opt u "email") _) eqn:He; [|discriminate].
    intros [= Hp]. split; now apply strict_eq_str.
  - intros [He Hp]. destruct (get_opt_str _ _ _ He) as [ps ->].
    rewrite !get_some by reflexivity. rewrite He, Hp. simpl. now rewrite !String.eqb_refl.
Qed.

Lemma credentials_match_other (e p : string) (u : value) :
  email_is (VStr e) u = Some false -> credentials_match e p u = Some false.
Proof.
  intros H. apply email_is_false in H as [Hn H]. unfold credentials_match.
  rewrite get_some by exact Hn.
  destruct (strict_eq _ _) eqn:E; [|reflexivity]. now apply strict_eq_str in E.
Qed.

(** *** What the login reads *)

Lemma admin_credentials_ext (e p : string) (st st' : LocalStorage.t) :
  LocalStorage.getItem ADMIN_CONFIG_KEY st' = LocalStorage.getItem ADMIN_CONFIG_KEY st ->
  admin_credentials e p st' = admin_credentials e p st.
Proof. intros H. unfold admin_credentials. now rewrite (loadData_ext _ _ _ _ H). Qed.

Lemma handleLoginAttempt_ext (e p : string) (st st' : LocalStorage.t) :
  LocalStorage.getItem ADMIN_CONFIG_KEY st' = LocalStorage.getItem ADMIN_CONFIG_KEY st ->
  LocalStorage.getItem USERS_DB_KEY st' = LocalStorage.getItem USERS_DB_KEY st ->
  handleLoginAttempt e p st' = handleLoginAttempt e p st.
Proof.
  intros Ha Hu. unfold handleLoginAttempt.
  now rewrite (admin_credentials_ext _ _ _ _ Ha), (loadData_ext _ _ _ _ Hu).
Qed.

Lemma login_users (e p : string) (st : LocalStorage.t) (users : list value) :
  admin_credentials e p st = Some false -> stored_users st = VArr users ->
  handleLoginAttempt e p st =
  match find_value (credentials_match e p) users with
  | Some user => Some (login_answer user)
  | None => None
  end.
Proof. intros Ha Hu. unfold handleLoginAttempt. unfold stored_users in Hu. now rewrite Ha, Hu. Qed.

Lemma login_success_inv (e p : string) (st : LocalStorage.t) (u r : value) :
  handleLoginAttempt e p st = Some (LoginSuccess u r) ->
  admin_credentials e p st = Some false /\
  exists pre post,
    stored_users st = VArr (pre ++ u :: post) /\
    Forall (fun x => credentials_match e p x = Some false) pre /\
    credentials_match e p u = Some true /\
    truthy (get_opt u "blocked") = false /\
    r = js_or (get_opt u "role") ROLES_VISITOR.
Proof.
  unfold handleLoginAttempt, stored_users.
  destruct (admin_credentials e p st) as [[]|]; try discriminate.
  destruct (loadData USERS_DB_KEY _ st) as [| | | | |users|]; try discriminate.
  destruct (find_value _ users) as [user|] eqn:Hf; [|discriminate].
  unfold login_answer. destruct (truthy user) eqn:Ht; [|discriminate].
  destruct (truthy (get_opt user "blocked")) eqn:Hb; [discriminate|].
  intros [= -> <-]. split; [reflexivity|].
  destruct (find_value_inv _ _ _ Hf) as [[-> _] | (pre & post & -> & Hpre & Hu)];
    [discriminate|].
  exists pre, post. repeat split; assumption.
Qed.

Lemma truthy_role (u : value) : truthy (js_or (get_opt u "role") ROLES_VISITOR) = true.
Proof. unfold js_or. destruct (truthy (get_opt u "role")) eqn:E; [exact E | reflexivity]. Qed.

(** X10. A login succeeds only with the credentials of a stored account that
    is not blocked and that are not those of the admin; the role it answers
    is the stored role, VISITOR in its absence, and never empty. *)
Theorem login_sound (e p : string) (st : LocalStorage.t) (u r : value) :
  handleLoginAttempt e p st = Some (LoginSuccess u r) ->
  exists users,
    stored_users st = VArr users /\ u ∈ users /\
    get_opt u "email" = VStr e /\ get_opt u "password" = VStr p /\
    truthy (get_opt u "blocked") = false /\
    r = js_or (get_opt u "role") ROLES_VISITOR /\ truthy r = true /\
    admin_credentials e p st = Some false.
Proof.
  intros H. apply login_success_inv in H as (Ha & pre & post & Hs & _ & Hu & Hb & ->).
  apply credentials_match_true in Hu as [He Hp].
  exists (pre ++ u :: post)%list. repeat split; try assumption.
  - apply elem_of_app. right. apply elem_of_cons. now left.
  - apply truthy_role.
Qed.

Lemma login_sound_witness :
  exists users,
    stored_users accounts_store = VArr users /\ ann ∈ users /\
    get_opt ann "email" = VStr "ann@example.org" /\
    get_opt ann "password" = VStr "pw-ann" /\
    truthy (get_opt ann "blocked") = false /\
    VStr "VISITOR" = js_or (get_opt ann "role") ROLES_VISITOR /\
    truthy (VStr "VISITOR") = true /\
    admin_credentials "ann@example.org" "pw-ann" accounts_store = Some false.
Proof.
  apply (login_sound "ann@example.org" "pw-ann" accounts_store ann (VStr "VISITOR")).
  vm_compute. reflexivity.
Defined.

(** *** [registerUser] *)

Lemma getItem_referral (k : string) (email : value) (today : string) (st : LocalStorage.t) :
  k <> KEYS_REF_LEDGER -> k <> KEYS_REF_REWARD_DATE ->
  LocalStorage.getItem k (store_of (referral_reward email today st)) = LocalStorage.getItem k st.
Proof.
  intros Hl Hd. unfold referral_reward.
  destruct (LocalStorage.getItem KEYS_REF_INCOMING st) as [ref|]; [|reflexivity].
  destruct (ref =? "")%string; [reflexivity|].
  destruct (bool_decide _); [reflexivity|].
  destruct (loadData KEYS_REF_LEDGER _ st) as [| | | |s|ledger|]; try reflexivity.
  - destruct (str_includes _ _); reflexivity.
  - destruct (existsb _ ledger); [reflexivity|].
    destruct (LocalStorage.setItem _ _ _) as [st2|] eqn:E; simpl.
    + rewrite (getItem_setItem_ne _ _ _ _ _ (not_eq_sym Hd) E).
      apply getItem_saveData_ne. congruence.
    + apply getItem_saveData_ne. congruence.
Qed.

(** The shape of a run of [registerUser] that answers "Account created.". *)
Lemma registerUser_created (data : obj) (today joined : string) (now : Z)
    (st st' : LocalStorage.t) :
  registerUser data today joined now st = Created st' ->
  exists users st1,
    stored_users st = VArr users /\
    (exists found, find_value (email_is (get_opt (VObj data) "email")) users = Some found /\
                   truthy found = false) /\
    st' = saveData USERS_DB_KEY
            (VArr (users ++ [VObj (registered_record data joined now)])) st1 /\
    (forall k, k <> KEYS_REF_LEDGER -> k <> KEYS_REF_REWARD_DATE ->
       k <> ORG_CONTEXT_KEY \/
       strict_eq (get_opt (VObj data) "accountType") ACCOUNT_TYPES_ORGANIZATION = false ->
       LocalStorage.getItem k st1 = LocalStorage.getItem k st).
Proof.
  unfold registerUser, stored_users, registered_record.
  destruct (loadData USERS_DB_KEY _ st) as [| | | | |users|]; try discriminate.
  destruct (find_value _ users) as [found|] eqn:Hf; [|discriminate].
  destruct (truthy found) eqn:Ht; [discriminate|].
  pose proof (fun k => getItem_referral k (get_opt (VObj data) "email") today st) as Hr.
  destruct (referral_reward _ today st) as [st1|st1]; [|discriminate]. simpl in Hr.
  destruct (strict_eq _ ACCOUNT_TYPES_ORGANIZATION).
  - destruct (LocalStorage.setItem ORG_CONTEXT_KEY _ st1) as [st2|] eqn:E; [|discriminate].
    intros [= <-]. exists users, st2.
    split; [reflexivity|]. split; [eauto|]. split; [reflexivity|].
    intros k H1 H2 [H3|H3]; [|discriminate].
    rewrite (getItem_setItem_ne _ _ _ _ _ (not_eq_sym H3) E). now apply Hr.
  - intros [= <-]. exists users, st1.
    split; [reflexivity|]. split; [eauto|]. split; [reflexivity|].
    intros k H1 H2 _. now apply Hr.
Qed.

(** A run that does not create the account leaves the user list alone. *)
Lemma registerUser_users_kept (data : obj) (today joined : string) (now : Z)
    (st : LocalStorage.t) :
  (forall st', registerUser data today joined now st <> Created st') ->
  LocalStorage.getItem USERS_DB_KEY (registered_store (registerUser data today joined now st))
  = LocalStorage.getItem USERS_DB_KEY st.
Proof.
  unfold registerUser.
  destruct (loadData USERS_DB_KEY _ st) as [| | | | |users|]; try reflexivity.
  destruct (find_value _ users) as [found|]; [|reflexivity].
  destruct (truthy found); [reflexivity|].
  pose proof (getItem_referral USERS_DB_KEY (get_opt (VObj data) "email") today st) as Hr.
  destruct (referral_reward _ today st) as [st1|st1]; simpl in Hr; [|intros _; now apply Hr].
  destruct (strict_eq _ ACCOUNT_TYPES_ORGANIZATION).
  - destruct (LocalStorage.setItem ORG_CONTEXT_KEY _ st1) as [st2|] eqn:E.
    + intros H. now destruct (H _ eq_refl).
    + intros _. now apply Hr.
  - intros H. now destruct (H _ eq_refl).
Qed.

(** With a string for an e-mail address, [find] returns a record or
    nothing. *)
Lemma find_email_falsy (e : string) (users : list value) (found : value) :
  find_value (email_is (VStr e)) users = Some found -> truthy found = false ->
  Forall (fun u => email_is (VStr e) u = Some false) users.
Proof.
  intros Hf Ht. destruct (find_value_inv _ _ _ Hf) as [[_ H] | (pre & post & -> & _ & Hu)];
    [exact H|].
  apply email_is_true in Hu. destruct (get_opt_str _ _ _ Hu) as [ps ->]. discriminate.
Qed.

Lemma wf_obj_set (k : string) (x : value) (ps : obj) :
  wf x = true -> wf (VObj ps) = true -> wf (VObj (obj_set k x ps)) = true.
Proof.
  intros Hx Hp. apply wf_obj_intro.
  - apply NoDup_obj_set. now apply wf_keys.
  - apply (Forall_obj_set (fun v => wf v = true)); [exact Hx | now apply wf_obj_values].
Qed.

Lemma wf_new_user (data : obj) (joined : string) :
  wf (VObj data) = true -> wf (VObj (new_user data joined)) = true.
Proof.
  intros Hw. unfold new_user.
  repeat apply wf_obj_set; try reflexivity; try exact Hw.
  - unfold js_or. destruct (truthy _); [now apply wf_get_opt | reflexivity].
  - change (assign [] data) with (assign [] (own_props (VObj data))).
    now rewrite spread_object.
Qed.

Lemma wf_org_context (data : obj) (now : Z) :
  wf (VObj data) = true -> wf (org_context data now) = true.
Proof.
  intros Hw. unfold org_context. apply wf_obj_intro.
  - apply (bool_decide_unpack _). vm_compute. exact I.
  - constructor; [reflexivity|]. constructor; [now apply wf_get_opt|].
    constructor; [now apply wf_get_opt|]. constructor; [reflexivity | constructor].
Qed.

Lemma wf_registered_record (data : obj) (joined : string) (now : Z) :
  wf (VObj data) = true -> wf (VObj (registered_record data joined now)) = true.
Proof.
  intros Hw. unfold registered_record. destruct (strict_eq _ _); [|now apply wf_new_user].
  apply wf_obj_set; [now apply wf_org_context | now apply wf_new_user].
Qed.

(** The fields of the new record that the login reads. *)
Lemma new_user_field (data : obj) (joined k : string) :
  wf (VObj data) = true ->
  k <> "role" -> k <> "joined" -> k <> "blocked" -> k <> "verified" ->
  get_opt (VObj (new_user data joined)) k = get_opt (VObj data) k.
Proof.
  intros Hw H1 H2 H3 H4. unfold new_user. rewrite !get_opt_obj_set.
  apply not_eq_sym, String.eqb_neq in H1, H2, H3, H4. rewrite H1, H2, H3, H4.
  change (assign [] data) with (assign [] (own_props (VObj data))).
  now rewrite spread_object.
Qed.

Lemma registered_record_field (data : obj) (joined k : string) (now : Z) :
  wf (VObj data) = true ->
  k <> "role" -> k <> "joined" -> k <> "blocked" -> k <> "verified" -> k <> "orgContext" ->
  get_opt (VObj (registered_record data joined now)) k = get_opt (VObj data) k.
Proof.
  intros Hw H1 H2 H3 H4 H5. unfold registered_record. destruct (strict_eq _ _).
  - rewrite get_opt_obj_set. apply not_eq_sym, String.eqb_neq in H5. rewrite H5.
    now apply new_user_field.
  - now apply new_user_field.
Qed.



Lemma get_opt_stored (ps : obj) (k : string) (v : value) :
  wf (VObj ps) = true -> get_opt (VObj ps) k = v -> is_undefined v = false ->
  get_opt (normalize (VObj ps)) k = normalize v.
Proof.
  intros Hw Hv Hu. rewrite get_opt_normalize by now apply wf_keys. now rewrite Hv, Hu.
Qed.


(** The user list after a registration that the store has taken. *)
Lemma stored_users_appended (users : list value) (nu : obj) (st st1 : LocalStorage.t) :
  stored_users st = VArr users ->
  LocalStorage.getItem USERS_DB_KEY st1 = LocalStorage.getItem USERS_DB_KEY st ->
  wf (VObj nu) = true ->
  stored_users (saveData USERS_DB_KEY (VArr (users ++ [VObj nu])) st1) =
  if accepts st1 USERS_DB_KEY (VArr (users ++ [VObj nu]))
  then VArr (users ++ [normalize (VObj nu)])
  else VArr users.
Proof.
  intros Hs Hk Hw. pose proof (loaded_array_good _ _ _ Hs) as Hg.
  destruct (accepts _ _ _) eqn:Hacc.
  - unfold stored_users. rewrite loadData_saveData_arr; [| |exact Hacc].
    + rewrite map_app, map_normalize_good by exact Hg. reflexivity.
    + apply Forall_app. split; [now apply Forall_good_wf | now constructor].
  - rewrite saveData_refused by exact Hacc. unfold stored_users in *.
    now rewrite (loadData_ext _ _ _ _ Hk).
Qed.

(** The login finds a record appended to a list that does not hold its
    e-mail address. *)
Lemma login_finds_appended (e p : string) (st : LocalStorage.t) (users : list value)
    (u : value) :
  admin_credentials e p st = Some false ->
  stored_users st = VArr (users ++ [u]) ->
  Forall (fun x => email_is (VStr e) x = Some false) users ->
  get_opt u "email" = VStr e -> get_opt u "password" = VStr p ->
  handleLoginAttempt e p st = Some (login_answer u).
Proof.
  intros Ha Hs Hnone He Hp. rewrite (login_users e p _ (users ++ [u]) Ha Hs).
  rewrite find_value_app.
  - simpl. assert (Hm : credentials_match e p u = Some true) by now apply credentials_match_true.
    now rewrite Hm.
  - eapply Forall_impl; [exact Hnone|]. intros x. apply credentials_match_other.
Qed.



Lemma find_email_exists (e : string) (users : list value) :
  Forall (fun u => u <> VNull) users -> Forall good users ->
  VStr e ∈ emails users ->
  exists found, find_value (email_is (VStr e)) users = Some found /\ truthy found = true.
Proof.
  intros Hn Hg. induction users as [|x r IH]; simpl; intros Hin.
  - now apply elem_of_nil in Hin.
  - apply Forall_cons in Hn as [Hx Hn]. apply Forall_cons in Hg as [Hgx Hg].
    assert (Hnx : nullish x = false).
    { destruct x; try reflexivity; [destruct Hgx; discriminate | congruence]. }
    destruct (email_is (VStr e) x) as [[]|] eqn:E.
    + exists x. split; [reflexivity|]. apply email_is_true in E.
      destruct (get_opt_str _ _ _ E) as [ps ->]. reflexivity.
    + apply email_is_false in E as [_ E].
      apply elem_of_cons in Hin as [Hin|Hin]; [congruence | now apply IH].
    + unfold email_is in E. now rewrite get_some in E.
Qed.

(** X12. [registerUser] refuses an e-mail address that a stored account
    already has: it answers "User exists!" and writes nothing. *)
Theorem register_rejects_duplicate (data : obj) (today joined : string) (now : Z)
    (st : LocalStorage.t) (users : list value) (e : string) :
  stored_users st = VArr users ->
  Forall (fun u => u <> VNull) users ->
  get_opt (VObj data) "email" = VStr e ->
  VStr e ∈ emails users ->
  registerUser data today joined now st = Refused st "User exists!".
Proof.
  intros Hs Hn He Hin. pose proof (loaded_array_good _ _ _ Hs) as Hg.
  destruct (find_email_exists e users Hn Hg Hin) as (found & Hf & Ht).
  unfold registerUser. unfold stored_users in Hs. now rewrite Hs, He, Hf, Ht.
Qed.

Lemma register_rejects_duplicate_witness :
  registerUser (obj_set "email" (VStr "bob@example.org") cy_data)
    "2026-01-02" "2026-01-02T00:00:00.000Z" 1767312000000 accounts_store
  = Refused accounts_store "User exists!".
Proof.
  apply (register_rejects_duplicate _ _ _ _ accounts_store accounts "bob@example.org").
  - vm_compute. reflexivity.
  - repeat constructor; discriminate.
  - reflexivity.
  - apply elem_of_cons. right. apply elem_of_cons. now left.
Defined.

Lemma emails_app (a b : list value) : emails (a ++ b) = (emails a ++ emails b)%list.
Proof. apply map_app. Qed.

(** X13. [registerUser] keeps the e-mail addresses of the stored accounts
    distinct: whatever it answers, a user list without a repeated address
    is followed by one. *)
Theorem register_keeps_emails_unique (data : obj) (today joined : string) (now : Z)
    (st : LocalStorage.t) (users : list value) (e : string) :
  wf (VObj data) = true ->
  get_opt (VObj data) "email" = VStr e ->
  stored_users st = VArr users ->
  NoDup (emails users) ->
  exists users',
    stored_users (registered_store (registerUser data today joined now st)) = VArr users' /\
    NoDup (emails users').
Proof.
  intros Hw He Hs Hnd.
  destruct (registerUser data today joined now st) as [st'|st' msg|st'] eqn:Hr; simpl;
    try (exists users; split; [|exact Hnd]; rewrite <- Hs; unfold stored_users;
         apply loadData_ext; rewrite <- (registerUser_users_kept data today joined now st);
         [now rewrite Hr | intros st2; rewrite Hr; discriminate]).
  destruct (registerUser_created _ _ _ _ _ _ Hr)
    as (users' & st1 & Hs' & (found & Hf & Ht) & -> & Hfr).
  rewrite Hs in Hs'. injection Hs' as <-. rewrite He in Hf.
  pose proof (find_email_falsy _ _ _ Hf Ht) as Hnone.
  set (nu := registered_record data joined now) in *.
  pose proof (wf_registered_record data joined now Hw) as Hwn. fold nu in Hwn.
  assert (Hk : LocalStorage.getItem USERS_DB_KEY st1 = LocalStorage.getItem USERS_DB_KEY st)
    by (apply Hfr; [discriminate | discriminate | left; discriminate]).
  rewrite (stored_users_appended users nu st st1 Hs Hk Hwn).
  destruct (accepts st1 USERS_DB_KEY _); [|now exists users].
  eexists. split; [reflexivity|]. rewrite emails_app.
  change (emails [normalize (VObj nu)]) with [get_opt (normalize (VObj nu)) "email"].
  rewrite (get_opt_stored nu "email" (VStr e)); [| exact Hwn | | reflexivity].
  - apply NoDup_app. split; [exact Hnd|]. split; [|apply NoDup_singleton].
    intros x Hx Hx'. apply list_elem_of_singleton in Hx'. subst x.
    unfold emails in Hx. apply list_elem_of_fmap in Hx as (u & Hu & Hin).
    rewrite Forall_forall in Hnone. apply Hnone in Hin.
    apply email_is_false in Hin as [_ Hin]. simpl in Hu. congruence.
  - unfold nu. rewrite registered_record_field; [exact He | exact Hw | discriminate ..].
Qed.

Lemma register_keeps_emails_unique_witness :
  exists users',
    stored_users
      (registered_store
         (registerUser cy_data "2026-01-02" "2026-01-02T00:00:00.000Z" 1767312000000
            accounts_store)) = VArr users' /\
    NoDup (emails users').
Proof.
  apply (register_keeps_emails_unique cy_data _ _ _ accounts_store accounts "cy@example.org").
  - reflexivity.
  - reflexivity.
  - vm_compute. reflexivity.
  - apply NoDup_cons. split; [|apply NoDup_singleton].
    intros H. apply list_elem_of_singleton in H. discriminate.
Defined.

(** *** The referral block *)

(** X14. The referral block of [registerUser] records at most one referral
    a day: a run that ends without an exception and has written anything
    has set the reward date to today, and every further run on that day,
    for whatever e-mail address, writes nothing. *)
Theorem referral_once_a_day (email email' : value) (today : string)
    (st st' : LocalStorage.t) :
  referral_reward email today st = Done st' ->
  st' <> st ->
  LocalStorage.getItem KEYS_REF_REWARD_DATE st' = Some today /\
  referral_reward email' today st' = Done st'.
Proof.
  unfold referral_reward at 1.
  destruct (LocalStorage.getItem KEYS_REF_INCOMING st) as [ref|] eqn:Hin;
    [|intros [= <-] H; now destruct H].
  destruct (ref =? "")%string eqn:Hne; [intros [= <-] H; now destruct H|].
  destruct (bool_decide _); [intros [= <-] H; now destruct H|].
  destruct (loadData KEYS_REF_LEDGER _ st) as [| | | |s|ledger|]; try discriminate.
  - destruct (str_includes _ _); [intros [= <-] H; now destruct H | discriminate].
  - destruct (existsb _ ledger); [intros [= <-] H; now destruct H|].
    destruct (LocalStorage.setItem KEYS_REF_REWARD_DATE today _) as [st2|] eqn:E;
      [|discriminate].
    intros [= <-] _.
    pose proof (getItem_setItem _ _ _ _ E) as Hd. split; [exact Hd|].
    assert (Hk : KEYS_REF_REWARD_DATE <> KEYS_REF_INCOMING) by discriminate.
    unfold referral_reward.
    rewrite (getItem_setItem_ne _ _ _ _ _ Hk E), getItem_saveData_ne by discriminate.
    rewrite Hin, Hne, Hd. now rewrite bool_decide_eq_true_2.
Qed.

Lemma referral_once_a_day_witness :
  let st' := store_of (referral_reward (VStr "cy@example.org") "2026-01-02" referred_store) in
  LocalStorage.getItem KEYS_REF_REWARD_DATE st' = Some "2026-01-02" /\
  referral_reward (VStr "dee@example.org") "2026-01-02" st' = Done st'.
Proof.
  apply (referral_once_a_day (VStr "cy@example.org") (VStr "dee@example.org") "2026-01-02"
           referred_store).
  - vm_compute. reflexivity.
  - intros H. apply (f_equal (LocalStorage.getItem KEYS_REF_REWARD_DATE)) in H.
    vm_compute in H. discriminate H.
Defined.

(** *** [handleSignup] *)

Lemma signup_not_organization (email pass name orgName industry : string) (tab : Tab) :
  strict_eq (get_opt (VObj (signup_data email pass name orgName industry tab)) "accountType")
    ACCOUNT_TYPES_ORGANIZATION = false.
Proof. destruct tab; reflexivity. Qed.

Lemma signup_record_stored (email pass name orgName industry joined : string) (tab : Tab)
    (now : Z) :
  let nu := registered_record (signup_data email pass name orgName industry tab) joined now in
  wf (VObj nu) = true /\ normalize (VObj nu) = VObj nu /\
  get_opt (VObj nu) "orgContext" = VUndefined /\
  get_opt (VObj nu) "accountType" = VStr (tab_lower tab) /\
  get_opt (VObj nu) "role" =
    match tab with ORG => ROLES_ORG_ADMIN | INDIVIDUAL => ROLES_VISITOR end.
Proof. destruct tab; repeat split; reflexivity. Qed.

Lemma signup_record_login (email pass name orgName industry joined : string) (tab : Tab)
    (now : Z) :
  let u := VObj (registered_record (signup_data email pass name orgName industry tab)
                   joined now) in
  get_opt u "email" = VStr email /\ get_opt u "password" = VStr pass /\
  get_opt u "name" = VStr name /\
  login_answer u =
    LoginSuccess u (match tab with ORG => ROLES_ORG_ADMIN | INDIVIDUAL => ROLES_VISITOR end).
Proof. destruct tab; repeat split; reflexivity. Qed.

(** X15. An account created through the sign-up form is stored with the
    account type of its tab, [individual] or [org], and without the context
    of an organisation; the stored context is not touched, and the account
    does not pass [canSeeBrandMode]. *)
Theorem signup_never_organization (email pass name orgName industry : string) (tab : Tab)
    (today joined : string) (now : Z) (st st' : LocalStorage.t) (users : list value) :
  stored_users st = VArr users ->
  handleSignup email pass name orgName industry tab today joined now st = Created st' ->
  LocalStorage.getItem ORG_CONTEXT_KEY st' = LocalStorage.getItem ORG_CONTEXT_KEY st /\
  (stored_users st' = VArr users \/
   exists u,
     stored_users st' = VArr (users ++ [u]) /\
     get_opt u "email" = VStr email /\
     get_opt u "accountType" = VStr (tab_lower tab) /\
     get_opt u "orgContext" = VUndefined /\
     canSeeBrandMode false u = false).
Proof.
  intros Hs. unfold handleSignup.
  destruct ((email =? "")%string || (pass =? "")%string || (name =? "")%string);
    [intros [=]|].
  set (data := signup_data email pass name orgName industry tab).
  destruct (registerUser data today joined now st) as [st1| |] eqn:Hr;
    [|intros [=] ..].
  destruct (LocalStorage.setItem ACCOUNT_TYPE_KEY _ st1) as [st2|] eqn:E; [|intros [=]].
  intros [= <-].
  destruct (registerUser_created _ _ _ _ _ _ Hr) as (users' & st0 & Hs' & _ & -> & Hfr).
  rewrite Hs in Hs'. injection Hs' as <-.
  pose proof (signup_not_organization email pass name orgName industry tab) as Hno.
  fold data in Hno.
  destruct (signup_record_stored email pass name orgName industry joined tab now)
    as (Hwn & Hnorm & Hctx & Hty & Hrole).
  fold data in Hwn, Hnorm, Hctx, Hty, Hrole.
  set (nu := registered_record data joined now) in *. split.
  - assert (Hne : ACCOUNT_TYPE_KEY <> ORG_CONTEXT_KEY) by discriminate.
    rewrite (getItem_setItem_ne _ _ _ _ _ Hne E).
    rewrite getItem_saveData_ne by discriminate.
    apply Hfr; [discriminate | discriminate | now right].
  - assert (Hk : LocalStorage.getItem USERS_DB_KEY st0 = LocalStorage.getItem USERS_DB_KEY st)
      by (apply Hfr; [discriminate | discriminate | left; discriminate]).
    pose proof (stored_users_appended users nu st st0 Hs Hk Hwn) as Hst.
    assert (Hst2 : stored_users st2 =
                   stored_users (saveData USERS_DB_KEY (VArr (users ++ [VObj nu])) st0)).
    { unfold stored_users. apply loadData_ext.
      assert (Hne : ACCOUNT_TYPE_KEY <> USERS_DB_KEY) by discriminate.
      apply (getItem_setItem_ne _ _ _ _ _ Hne E). }
    rewrite Hst2, Hst. destruct (accepts st0 USERS_DB_KEY _); [right | now left].
    exists (VObj nu). rewrite Hnorm. split; [reflexivity|].
    split; [unfold nu, data; now destruct tab|]. split; [exact Hty|]. split; [exact Hctx|].
    unfold canSeeBrandMode, accountType. rewrite Hty. now destruct tab.
Qed.

Lemma signup_never_organization_witness :
  let st' := registered_store
               (handleSignup "dee@example.org" "pw-dee" "Dee" "Acme" "Retail" ORG
                  "2026-01-02" "2026-01-02T00:00:00.000Z" 1767312000000 accounts_store) in
  LocalStorage.getItem ORG_CONTEXT_KEY st' = LocalStorage.getItem ORG_CONTEXT_KEY accounts_store /\
  (stored_users st' = VArr accounts \/
   exists u,
     stored_users st' = VArr (accounts ++ [u]) /\
     get_opt u "email" = VStr "dee@example.org" /\
     get_opt u "accountType" = VStr "org" /\
     get_opt u "orgContext" = VUndefined /\
     canSeeBrandMode false u = false).
Proof.
  apply (signup_never_organization "dee@example.org" "pw-dee" "Dee" "Acme" "Retail" ORG
           "2026-01-02" "2026-01-02T00:00:00.000Z" 1767312000000 accounts_store _ accounts);
    vm_compute; reflexivity.
Defined.

(** X16. A visitor who signs up under the name Admin can take the admin
    view: once the account is stored, its login succeeds with the role of
    its tab, the toolbar of the world offers the button "Admin View", which
    looks at the name of the current user alone, and the button makes the
    session an admin session. *)
Theorem admin_view_by_name (email pass orgName industry : string) (tab : Tab)
    (today joined : string) (now : Z) (st st' : LocalStorage.t) (users : list value)
    (s : Scene) :
  stored_users st = VArr users ->
  admin_credentials email pass st = Some false ->
  handleSignup email pass "Admin" orgName industry tab today joined now st = Created st' ->
  stored_users st' <> VArr users ->
  isAdmin s = false -> in_world s = true ->
  exists u r,
    handleLoginAttempt email pass st' = Some (LoginSuccess u r) /\
    isAdmin (onLoginSuccess s u r) = false /\
    admin_view_offered (onLoginSuccess s u r) = true /\
    isAdmin (click_admin_view (onLoginSuccess s u r)) = true.
Proof.
  intros Hs Ha Hsign Hnew Hadm Hworld. unfold handleSignup in Hsign.
  destruct ((email =? "")%string || (pass =? "")%string || ("Admin" =? "")%string);
    [discriminate|].
  set (data := signup_data email pass "Admin" orgName industry tab) in *.
  destruct (registerUser data today joined now st) as [st1| |] eqn:Hr; try discriminate.
  destruct (LocalStorage.setItem ACCOUNT_TYPE_KEY _ st1) as [st2|] eqn:E; [|discriminate].
  injection Hsign as <-.
  destruct (registerUser_created _ _ _ _ _ _ Hr)
    as (users' & st0 & Hs' & (found & Hf & Ht) & -> & Hfr).
  rewrite Hs in Hs'. injection Hs' as <-.
  change (get_opt (VObj data) "email") with (VStr email) in Hf.
  pose proof (find_email_falsy _ _ _ Hf Ht) as Hnone.
  destruct (signup_record_stored email pass "Admin" orgName industry joined tab now)
    as (Hwn & Hnorm & _).
  destruct (signup_record_login email pass "Admin" orgName industry joined tab now)
    as (Hue & Hup & Hun & Hans).
  fold data in Hwn, Hnorm, Hue, Hup, Hun, Hans.
  set (nu := registered_record data joined now) in *.
  assert (Hne : ACCOUNT_TYPE_KEY <> USERS_DB_KEY) by discriminate.
  assert (Hna : ACCOUNT_TYPE_KEY <> ADMIN_CONFIG_KEY) by discriminate.
  assert (Hk : LocalStorage.getItem USERS_DB_KEY st0 = LocalStorage.getItem USERS_DB_KEY st)
    by (apply Hfr; [discriminate | discriminate | left; discriminate]).
  assert (Hst2 : stored_users st2 = VArr (users ++ [VObj nu])).
  { assert (H : stored_users st2 =
                stored_users (saveData USERS_DB_KEY (VArr (users ++ [VObj nu])) st0)).
    { unfold stored_users. apply loadData_ext. apply (getItem_setItem_ne _ _ _ _ _ Hne E). }
    rewrite H in Hnew |- *. rewrite (stored_users_appended users nu st st0 Hs Hk Hwn) in Hnew |- *.
    destruct (accepts st0 USERS_DB_KEY _); [now rewrite Hnorm | now destruct Hnew]. }
  exists (VObj nu), (match tab with ORG => ROLES_ORG_ADMIN | INDIVIDUAL => ROLES_VISITOR end).
  split; [|split; [|split]].
  - rewrite <- Hans. apply (login_finds_appended email pass st2 users); try assumption.
    rewrite <- Ha. apply admin_credentials_ext.
    rewrite (getItem_setItem_ne _ _ _ _ _ Hna E).
    rewrite getItem_saveData_ne by discriminate.
    apply Hfr; [discriminate | discriminate | left; discriminate].
  - simpl. rewrite Hadm. now destruct tab.
  - unfold admin_view_offered. simpl isAdmin. simpl currentUser. rewrite Hadm, Hun.
    replace (in_world (onLoginSuccess s (VObj nu) _)) with (in_world s) by reflexivity.
    rewrite Hworld. now destruct tab.
  - reflexivity.
Qed.

Lemma admin_view_by_name_witness :
  let st' := registered_store
               (handleSignup "eve@example.org" "pw-eve" "Admin" "" "" INDIVIDUAL
                  "2026-01-02" "2026-01-02T00:00:00.000Z" 1767312000000 accounts_store) in
  exists u r,
    handleLoginAttempt "eve@example.org" "pw-eve" st' = Some (LoginSuccess u r) /\
    isAdmin (onLoginSuccess (guest_scene DEFAULT_MASTER_FLAGS) u r) = false /\
    admin_view_offered (onLoginSuccess (guest_scene DEFAULT_MASTER_FLAGS) u r) = true /\
    isAdmin (click_admin_view (onLoginSuccess (guest_scene DEFAULT_MASTER_FLAGS) u r)) = true.
Proof.
  apply (admin_view_by_name "eve@example.org" "pw-eve" "" "" INDIVIDUAL
           "2026-01-02" "2026-01-02T00:00:00.000Z" 1767312000000 accounts_store _ accounts
           (guest_scene DEFAULT_MASTER_FLAGS)); try (vm_compute; reflexivity).
  vm_compute. intros H. discriminate H.
Defined.

End Accounts.

(** ** The admin's hand on the accounts *)

Module UserAdmin.
Import Js Json App Samples.
Import JsFacts JsonFacts StoreFacts RoundTrip Analytics Migration Gates ObjFacts Audit Accounts.

Lemma map_values_Forall2 (f : value -> option value) (xs ys : list value) :
  map_values f xs = Some ys -> Forall2 (fun x y => f x = Some y) xs ys.
Proof.
  revert ys. induction xs as [|x r IH]; simpl; intros ys.
  - intros [= <-]. constructor.
  - destruct (f x) as [y|] eqn:E; [|discriminate].
    destruct (map_values f r) as [r'|]; [|discriminate].
    intros [= <-]. constructor; [exact E | now apply IH].
Qed.

Lemma with_field_obj (k : string) (v : value) (ps : obj) :
  wf (VObj ps) = true -> with_field k v (VObj ps) = VObj (obj_set k v ps).
Proof. intros Hw. unfold with_field. now rewrite spread_object. Qed.

Lemma good_with_field (k : string) (v x : value) : good v -> good x -> good (with_field k v x).
Proof.
  intros Hv Hx. unfold with_field. apply good_obj_value. split.
  - apply NoDup_obj_set, NoDup_assign_nil.
  - apply (Forall_obj_set good); [exact Hv|].
    apply (Forall_assign good); [now apply good_own_props | constructor].
Qed.

Lemma credentials_match_fields (e p : string) (x x' : value) :
  nullish x = false -> nullish x' = false ->
  get_opt x' "email" = get_opt x "email" ->
  get_opt x' "password" = get_opt x "password" ->
  credentials_match e p x' = credentials_match e p x.
Proof.
  intros Hn Hn' He Hp. unfold credentials_match.
  now rewrite !get_some, He, Hp by assumption.
Qed.

(** A field of a record other than the one an update writes. *)
Lemma with_field_other (k k' : string) (v x : value) :
  good x -> k <> k' -> get_opt x "email" <> VUndefined ->
  get_opt (with_field k v x) k' = get_opt x k'.
Proof.
  intros Hg Hk He. destruct x; try (now destruct He).
  rewrite with_field_obj by apply Hg. rewrite get_opt_obj_set.
  apply String.eqb_neq in Hk. now rewrite Hk.
Qed.

(** What an update of the rows of [u] does to one row, as the login sees
    it. *)
Lemma update_row_spec (k : string) (f : value -> value) (u x x' : value) (e p : string) :
  k <> "email" -> k <> "password" ->
  get_opt u "email" = VStr e -> good x -> good (f x) ->
  update_row k f u x = Some x' ->
  good x' /\ credentials_match e p x' = credentials_match e p x /\
  (credentials_match e p x = Some true -> x' = with_field k (f x) x).
Proof.
  intros Hke Hkp Hu Hg Hf. unfold update_row, same_email.
  destruct (get x "email") as [a|] eqn:Ex; [|discriminate].
  apply get_inv in Ex as [-> Hn].
  destruct (get_opt_str _ _ _ Hu) as [us ->]. rewrite get_some by reflexivity. rewrite Hu.
  destruct (strict_eq (get_opt x "email") (VStr e)) eqn:Hs; intros [= <-].
  - apply strict_eq_str in Hs. split; [now apply good_with_field|]. split; [|reflexivity].
    apply credentials_match_fields; [exact Hn | reflexivity | |];
      apply with_field_other; try assumption; rewrite Hs; discriminate.
  - split; [exact Hg|]. split; [reflexivity|]. intros H.
    apply credentials_match_true in H as [H _]. apply strict_eq_str in H. congruence.
Qed.

(** The login after the rows of the account that could log in have been
    updated and the store has taken the list. *)
Lemma login_after_update (k : string) (f : value -> value) (e p : string)
    (st : LocalStorage.t) (users updated : list value) (u r : value) :
  k <> "email" -> k <> "password" -> (forall x, good (f x)) ->
  stored_users st = VArr users ->
  handleLoginAttempt e p st = Some (LoginSuccess u r) ->
  update_rows k f u users = Some updated ->
  accepts st USERS_DB_KEY (VArr updated) = true ->
  handleLoginAttempt e p (saveData USERS_DB_KEY (VArr updated) st) =
  Some (login_answer (with_field k (f u) u)).
Proof.
  intros Hke Hkp Hf Hs Hl Hup Hacc.
  apply login_success_inv in Hl as (Ha & pre & post & Hs' & Hpre & Hu & _ & _).
  rewrite Hs in Hs'. injection Hs' as ->.
  pose proof (loaded_array_good _ _ _ Hs) as Hg.
  pose proof (proj1 (credentials_match_true e p u) Hu) as [Hue _].
  apply map_values_Forall2 in Hup.
  assert (Hrows : Forall2 (fun x x' =>
            good x' /\ credentials_match e p x' = credentials_match e p x /\
            (credentials_match e p x = Some true -> x' = with_field k (f x) x))
          (pre ++ u :: post) updated).
  { clear -Hup Hg Hke Hkp Hf Hue. induction Hup as [|x x' l l' Hx _ IH]; [constructor|].
    apply Forall_cons in Hg as [Hgx Hg]. constructor; [|now apply IH].
    now apply (update_row_spec k f u x x' e p). }
  apply Forall2_app_inv_l in Hrows as (pre' & rest & Hpre' & Hrest & ->).
  apply Forall2_cons_inv_l in Hrest as (u' & post' & (Hgu & Hmu & Heq) & Hpost & ->).
  rewrite (Heq Hu) in *. clear Heq.
  assert (Hgood : Forall good (pre' ++ with_field k (f u) u :: post')).
  { apply Forall_app. split; [|constructor; [exact Hgu|]].
    - eapply Forall2_Forall_r; [exact Hpre'|]. apply Forall_forall. now intros x _ y [H _].
    - eapply Forall2_Forall_r; [exact Hpost|]. apply Forall_forall. now intros x _ y [H _]. }
  rewrite (login_users e p _ (pre' ++ with_field k (f u) u :: post')).
  - rewrite find_value_app.
    + simpl. now rewrite Hmu, Hu.
    + clear -Hpre' Hpre. induction Hpre' as [|x x' l l' (_ & Hx & _) _ IH]; [constructor|].
      apply Forall_cons in Hpre as [Hpx Hpre]. constructor; [congruence | now apply IH].
  - rewrite <- Ha. apply admin_credentials_ext. apply getItem_saveData_ne. discriminate.
  - unfold stored_users. apply loadData_saveData_good; [now apply good_arr | exact Hacc].
Qed.

(** X17. Blocking takes effect at the next login: once the admin has
    pressed Block on an account that could log in and the store has taken
    the list, the same credentials answer "Account blocked.". *)
Theorem block_locks_out (e p : string) (st : LocalStorage.t) (users updated : list value)
    (u r : value) :
  stored_users st = VArr users ->
  handleLoginAttempt e p st = Some (LoginSuccess u r) ->
  block_toggled u users = Some updated ->
  accepts st USERS_DB_KEY (VArr updated) = true ->
  handleLoginAttempt e p (store_of (toggle_block users u st)) =
  Some (LoginError "Account blocked.").
Proof.
  intros Hs Hl Hup Hacc. unfold toggle_block. rewrite Hup. simpl store_of.
  unfold block_toggled in Hup.
  rewrite (login_after_update "blocked" (fun x => VBool (negb (truthy (get_opt x "blocked"))))
             e p st users updated u r); try assumption; try discriminate.
  - apply login_success_inv in Hl as (_ & _ & _ & _ & _ & _ & Hb & _).
    rewrite Hb. unfold login_answer, with_field. simpl truthy. cbv iota.
    now rewrite assoc_obj_set.
  - intros x. now split.
Qed.

Lemma block_locks_out_witness :
  handleLoginAttempt "ann@example.org" "pw-ann"
    (store_of (toggle_block accounts ann accounts_store)) =
  Some (LoginError "Account blocked.").
Proof.
  apply (block_locks_out "ann@example.org" "pw-ann" accounts_store accounts
           [with_field "blocked" (VBool true) ann; bob] ann (VStr "VISITOR"));
    vm_compute; reflexivity.
Defined.

(** X18. A role the admin selects is the role of the next login: once the
    store has taken the list, the credentials of an account that could log
    in answer SUCCESS with the new role. *)
Theorem role_change_at_login (e p newRole now : string) (st : LocalStorage.t)
    (users updated : list value) (u r : value) :
  newRole <> "" ->
  stored_users st = VArr users ->
  handleLoginAttempt e p st = Some (LoginSuccess u r) ->
  role_changed u newRole users = Some updated ->
  accepts st USERS_DB_KEY (VArr updated) = true ->
  handleLoginAttempt e p (store_of (change_role users u newRole now st)) =
  Some (LoginSuccess (with_field "role" (VStr newRole) u) (VStr newRole)).
Proof.
  intros Hr Hs Hl Hup Hacc.
  pose proof (login_success_inv _ _ _ _ _ Hl) as (_ & pre & post & Hs' & _ & Hu & Hb & _).
  apply credentials_match_true in Hu as [Hue _].
  assert (Hgu : good u).
  { pose proof (loaded_array_good _ _ _ Hs') as Hg.
    apply Forall_app in Hg as [_ Hg]. now apply Forall_cons in Hg as [Hg _]. }
  unfold change_role. rewrite Hup.
  destruct (get_opt_str _ _ _ Hue) as [us Hus]. rewrite Hus at 1. simpl get. cbv iota.
  rewrite (handleLoginAttempt_ext e p (saveData USERS_DB_KEY (VArr updated) st));
    try (apply getItem_logAdmin; discriminate).
  unfold role_changed in Hup.
  rewrite (login_after_update "role" (fun _ => VStr newRole) e p st users updated u r);
    try assumption; try discriminate.
  - f_equal. unfold login_answer.
    rewrite (with_field_other "role" "blocked") by (try assumption; try discriminate;
                                                     rewrite Hue; discriminate).
    rewrite Hb. unfold with_field at 1. simpl truthy. cbv iota. f_equal.
    unfold with_field. rewrite get_opt_obj_set. simpl. unfold js_or. simpl.
    apply String.eqb_neq in Hr. now rewrite Hr.
  - intros x. now split.
Qed.

Lemma role_change_at_login_witness :
  handleLoginAttempt "ann@example.org" "pw-ann"
    (store_of (change_role accounts ann "EDITOR" "2026-01-02T00:00:00.000Z" accounts_store)) =
  Some (LoginSuccess (with_field "role" (VStr "EDITOR") ann) (VStr "EDITOR")).
Proof.
  apply (role_change_at_login "ann@example.org" "pw-ann" "EDITOR" "2026-01-02T00:00:00.000Z"
           accounts_store accounts [with_field "role" (VStr "EDITOR") ann; bob] ann
           (VStr "VISITOR")); try (vm_compute; reflexivity).
  discriminate.
Defined.

Lemma without_user_spec (u : value) (e : string) (users rest : list value) :
  get_opt u "email" = VStr e ->
  without_user u users = Some rest ->
  Forall (fun x => email_is (VStr e) x = Some false) rest /\
  (forall P : value -> Prop, Forall P users -> Forall P rest).
Proof.
  intros Hu. destruct (get_opt_str _ _ _ Hu) as [us ->].
  revert rest. induction users as [|x r IH]; simpl; intros rest.
  - intros [= <-]. split; [constructor | auto].
  - unfold same_email at 1. rewrite (get_some (VObj us)) by reflexivity. rewrite Hu.
    destruct (get x "email") as [a|] eqn:Ex; [|discriminate].
    destruct (without_user (VObj us) r) as [r'|]; [|discriminate].
    destruct (IH r' eq_refl) as [H1 H2].
    destruct (strict_eq a (VStr e)) eqn:Hs; intros [= <-].
    + split; [exact H1|]. intros P HP. apply Forall_cons in HP as [_ HP]. now apply H2.
    + split.
      * constructor; [|exact H1]. unfold email_is. now rewrite Ex, Hs.
      * intros P HP. apply Forall_cons in HP as [Hx HP]. constructor; [exact Hx | now apply H2].
Qed.

(** X19. A deleted account cannot log in: once the admin has confirmed
    the deletion and the store has taken the list, the e-mail address of
    the account answers "Invalid credentials." with every password. *)
Theorem delete_locks_out (e p : string) (st : LocalStorage.t) (users rest : list value)
    (u : value) :
  stored_users st = VArr users ->
  get_opt u "email" = VStr e ->
  admin_credentials e p st = Some false ->
  without_user u users = Some rest ->
  accepts st USERS_DB_KEY (VArr rest) = true ->
  handleLoginAttempt e p (store_of (delete_user users u true st)) =
  Some (LoginError "Invalid credentials.").
Proof.
  intros Hs Hu Ha Hw Hacc. unfold delete_user. rewrite Hw. simpl store_of.
  destruct (without_user_spec _ _ _ _ Hu Hw) as [Hnone Hkeep].
  pose proof (Hkeep good (loaded_array_good _ _ _ Hs)) as Hg.
  rewrite (login_users e p _ rest).
  - rewrite find_value_none; [reflexivity|].
    eapply Forall_impl; [exact Hnone|]. intros x. apply credentials_match_other.
  - rewrite <- Ha. apply admin_credentials_ext. apply getItem_saveData_ne. discriminate.
  - unfold stored_users. apply loadData_saveData_good; [now apply good_arr | exact Hacc].
Qed.

Lemma delete_locks_out_witness :
  handleLoginAttempt "ann@example.org" "pw-ann"
    (store_of (delete_user accounts ann true accounts_store)) =
  Some (LoginError "Invalid credentials.").
Proof.
  apply (delete_locks_out "ann@example.org" "pw-ann" accounts_store accounts [bob] ann);
    vm_compute; reflexivity.
Defined.

(** X20. New admin credentials are those of the next login: once the store
    has taken the record, its e-mail address and password answer
    2FA_REQUIRED, whatever the user list holds. *)
Theorem new_credentials_at_login (cfg : value) (e p now : string) (st : LocalStorage.t) :
  wf cfg = true ->
  get_opt cfg "email" = VStr e ->
  get_opt cfg "password" = VStr p ->
  accepts st ADMIN_CONFIG_KEY cfg = true ->
  handleLoginAttempt e p (store_of (change_credentials cfg now st)) = Some TwoFactorRequired.
Proof.
  intros Hw He Hp Hacc. unfold change_credentials.
  rewrite (handleLoginAttempt_ext e p (saveData ADMIN_CONFIG_KEY cfg st));
    try (apply getItem_logAdmin; discriminate).
  destruct (get_opt_str _ _ _ He) as [ps ->].
  unfold handleLoginAttempt, admin_credentials.
  rewrite loadData_saveData; [|exact Hw|discriminate|exact Hacc].
  rewrite !get_some by reflexivity.
  rewrite (get_opt_stored ps "email" (VStr e)), (get_opt_stored ps "password" (VStr p));
    try assumption; try reflexivity.
  simpl. now rewrite !String.eqb_refl.
Qed.

Lemma new_credentials_at_login_witness :
  handleLoginAttempt "root@example.org" "s3cret"
    (store_of (change_credentials new_admin_config "2026-01-02T00:00:00.000Z" accounts_store))
  = Some TwoFactorRequired.
Proof.
  apply (new_credentials_at_login new_admin_config "root@example.org" "s3cret");
    vm_compute; reflexivity.
Defined.

(** X21. A successful login makes the session an admin session exactly
    when the stored role of the account is ADMIN (or the session was one
    already); the account becomes the current user. *)
Theorem login_admin_role (e p : string) (st : LocalStorage.t) (u r : value) (s : Scene) :
  handleLoginAttempt e p st = Some (LoginSuccess u r) ->
  isAdmin (onLoginSuccess s u r) = isAdmin s || strict_eq (get_opt u "role") ROLES_ADMIN /\
  currentUser (onLoginSuccess s u r) = u.
Proof.
  intros H. apply login_success_inv in H as (_ & _ & _ & _ & _ & _ & _ & ->).
  split; [|reflexivity]. simpl. f_equal. unfold js_or.
  destruct (truthy (get_opt u "role")) eqn:E; [reflexivity|].
  destruct (strict_eq (get_opt u "role") ROLES_ADMIN) eqn:Hs; [|reflexivity].
  apply strict_eq_str in Hs. rewrite Hs in E. discriminate.
Qed.

Lemma login_admin_role_witness :
  isAdmin (onLoginSuccess (guest_scene DEFAULT_MASTER_FLAGS) ann (VStr "VISITOR")) = false /\
  currentUser (onLoginSuccess (guest_scene DEFAULT_MASTER_FLAGS) ann (VStr "VISITOR")) = ann.
Proof.
  apply (login_admin_role "ann@example.org" "pw-ann" accounts_store ann (VStr "VISITOR")).
  vm_compute. reflexivity.
Defined.

End UserAdmin.

(** ** The session and the flags across a reload *)

Module Session.
Import Js Json App Samples.
Import JsFacts JsonFacts StoreFacts RoundTrip Analytics Migration Gates ObjFacts Audit.

Lemma getItem_removeItem (k : string) (st : LocalStorage.t) :
  LocalStorage.getItem k (LocalStorage.removeItem k st) = None.
Proof. unfold LocalStorage.getItem, LocalStorage.removeItem. simpl. apply lookup_delete_eq. Qed.

Lemma getItem_removeItem_ne (k k' : string) (st : LocalStorage.t) :
  k <> k' ->
  LocalStorage.getItem k' (LocalStorage.removeItem k st) = LocalStorage.getItem k' st.
Proof.
  intros H. unfold LocalStorage.getItem, LocalStorage.removeItem. simpl.
  now apply lookup_delete_ne.
Qed.

Lemma set_or_remove_at (c : bool) (k v : string) (st st' : LocalStorage.t) :
  set_or_remove c k v st = Some st' ->
  LocalStorage.getItem k st' = if c then Some v else None.
Proof.
  unfold set_or_remove. destruct c.
  - apply getItem_setItem.
  - intros [= <-]. apply getItem_removeItem.
Qed.

Lemma set_or_remove_ne (c : bool) (k k' v : string) (st st' : LocalStorage.t) :
  k <> k' -> set_or_remove c k v st = Some st' ->
  LocalStorage.getItem k' st' = LocalStorage.getItem k' st.
Proof.
  intros Hne. unfold set_or_remove. destruct c.
  - now apply getItem_setItem_ne.
  - intros [= <-]. now apply getItem_removeItem_ne.
Qed.

(** X22. The session survives a reload: after the effect has written it,
    the initial states of [SceneContent] are the admin mark as it was, the
    current user as JSON carries it ([null] without one), and the view
    TRANSITION for a viewer who was in the world, LANDING otherwise. *)
Theorem session_survives_reload (s : Scene) (st st' : LocalStorage.t) :
  wf (currentUser s) = true ->
  persist_session s st = Done st' ->
  initial_isAdmin st' = isAdmin s /\
  initial_currentUser st' =
    (if truthy (currentUser s) then normalize (currentUser s) else VNull) /\
  initial_viewState st' = (if in_world s then TRANSITION else LANDING).
Proof.
  intros Hw. unfold persist_session.
  destruct (set_or_remove (isAdmin s) _ _ st) as [st1|] eqn:E1; [|discriminate].
  destruct (set_or_remove (truthy _) _ _ st1) as [st2|] eqn:E2; [|discriminate].
  destruct (set_or_remove (in_world s) _ _ st2) as [st3|] eqn:E3; [|discriminate].
  intros [= <-].
  assert (H21 : USER_SESSION_KEY <> IS_ADMIN_KEY) by discriminate.
  assert (H31 : AUTH_STATE_KEY <> IS_ADMIN_KEY) by discriminate.
  assert (H32 : AUTH_STATE_KEY <> USER_SESSION_KEY) by discriminate.
  split; [|split].
  - unfold initial_isAdmin.
    rewrite (set_or_remove_ne _ _ _ _ _ _ H31 E3), (set_or_remove_ne _ _ _ _ _ _ H21 E2).
    rewrite (set_or_remove_at _ _ _ _ _ E1). now destruct (isAdmin s).
  - unfold initial_currentUser.
    rewrite (set_or_remove_ne _ _ _ _ _ _ H32 E3).
    rewrite (set_or_remove_at _ _ _ _ _ E2).
    destruct (truthy (currentUser s)) eqn:Ht; [|reflexivity].
    destruct (serialized_parse (currentUser s) Hw) as [_ ->]; [|reflexivity].
    intros H. now rewrite H in Ht.
  - unfold initial_viewState. rewrite (set_or_remove_at _ _ _ _ _ E3).
    now destruct (in_world s).
Qed.

Lemma session_survives_reload_witness :
  let st' := store_of (persist_session visitor_session empty_store) in
  initial_isAdmin st' = false /\
  initial_currentUser st' = individual_user /\
  initial_viewState st' = TRANSITION.
Proof.
  apply (session_survives_reload visitor_session empty_store); vm_compute; reflexivity.
Defined.

(** X23. A flag switched in the master control panel and saved with the
    scene is the flag of the next start: once the store has taken the
    flags, the initial flags hold the switched flag inverted and every other
    flag of the panel as it was. *)
Theorem saved_toggle_survives (s : Scene) (k now : string) (st : LocalStorage.t) :
  wf (VObj (masterFlags s)) = true ->
  k ∈ keys (masterFlags s) ->
  let s' := step s (ToggleFlag k) in
  accepts (saveData STORAGE_KEY (sceneData s') st) MASTER_FLAGS_KEY (VObj (masterFlags s'))
  = true ->
  forall k', k' ∈ keys (masterFlags s) ->
    truthy (get_opt (initial_masterFlags (store_of (handleSave s' now st))) k') =
    if (k =? k')%string then negb (flag (masterFlags s) k) else flag (masterFlags s) k'.
Proof.
  intros Hw Hk s' Hacc k' _.
  assert (Hw' : wf (VObj (masterFlags s')) = true).
  { simpl. apply Accounts.wf_obj_set; [reflexivity | exact Hw]. }
  unfold initial_masterFlags, handleSave.
  rewrite (loadData_ext MASTER_FLAGS_KEY _
             (saveData MASTER_FLAGS_KEY (VObj (masterFlags s'))
                (saveData STORAGE_KEY (sceneData s') st)))
    by (apply getItem_logAdmin; discriminate).
  rewrite loadData_saveData; [|exact Hw'|discriminate|exact Hacc].
  rewrite truthy_get_opt_normalize by now apply wf_keys.
  simpl masterFlags. rewrite get_opt_obj_set.
  destruct (k =? k')%string; reflexivity.
Qed.

Lemma saved_toggle_survives_witness :
  truthy (get_opt (initial_masterFlags
                     (store_of (handleSave
                                  (step (admin_scene DEFAULT_MASTER_FLAGS) (ToggleFlag "showChat"))
                                  "2026-01-02T00:00:00.000Z" empty_store))) "showChat")
  = false.
Proof.
  apply (saved_toggle_survives (admin_scene DEFAULT_MASTER_FLAGS) "showChat"
           "2026-01-02T00:00:00.000Z" empty_store).
  - reflexivity.
  - apply (bool_decide_unpack _). vm_compute. exact I.
  - vm_compute. reflexivity.
  - apply (bool_decide_unpack _). vm_compute. exact I.
Defined.

End Session.

(** ** The leads *)

Module Leads.
Import Js Json App Samples.
Import JsFacts JsonFacts StoreFacts RoundTrip Analytics Migration ObjFacts Audit Accounts.

Lemma wf_assign (t src : obj) :
  wf (VObj t) = true -> wf (VObj src) = true -> wf (VObj (assign t src)) = true.
Proof.
  intros Ht Hs. apply wf_obj_intro.
  - apply NoDup_assign. now apply wf_keys.
  - apply (Forall_assign (fun v => wf v = true)); now apply wf_obj_values.
Qed.

Lemma wf_lead (form : obj) (prefill : value) (now : Z) (date : string) :
  wf (VObj form) = true -> wf (lead_of form prefill now date) = true.
Proof.
  intros Hw. unfold lead_of. repeat apply wf_obj_set; try reflexivity.
  now apply wf_assign.
Qed.

Lemma wf_legacy_lead (form : obj) (date : string) :
  wf (VObj form) = true -> wf (legacy_lead_of form date) = true.
Proof.
  intros Hw. unfold legacy_lead_of. apply wf_obj_set; [reflexivity|].
  now apply wf_assign.
Qed.

(** The leads after one more entry has been written. *)
Lemma stored_leads_appended (leads : list value) (x : value) (st : LocalStorage.t) :
  stored_leads st = VArr leads -> wf x = true ->
  stored_leads (saveData BRAND_LEADS_KEY (VArr (leads ++ [x])) st) =
  VArr (if accepts st BRAND_LEADS_KEY (VArr (leads ++ [x]))
        then (leads ++ [normalize x])%list else leads).
Proof.
  intros Hs Hw. pose proof (loaded_array_good _ _ _ Hs) as Hg.
  destruct (accepts _ _ _) eqn:Hacc.
  - unfold stored_leads. rewrite loadData_saveData_arr; [| |exact Hacc].
    + rewrite map_app, map_normalize_good by exact Hg. reflexivity.
    + apply Forall_app. split; [now apply Forall_good_wf | now constructor].
  - now rewrite saveData_refused.
Qed.

(** X24. A request for a pitch deck enters the leads list twice: the
    legacy key that [submit] writes last is the key of the list itself, so
    after the lead with its id, status and context the list receives a
    second entry, the form with a date.  Each of the two writes is dropped
    alone when the store refuses it. *)
Theorem lead_entered_twice (form : obj) (prefill : value) (now : Z) (date ts date' : string)
    (st st' : LocalStorage.t) (leads : list value) :
  wf (VObj form) = true ->
  stored_leads st = VArr leads ->
  submit form prefill now date ts date' st = Done st' ->
  let lead := lead_of form prefill now date in
  let legacy := legacy_lead_of form date' in
  let st1 := saveData BRAND_LEADS_KEY (VArr (leads ++ [lead])) st in
  let st2 := store_of (logAdmin "brand_deck_request" (deck_request form prefill) ts st1) in
  let mid := if accepts st BRAND_LEADS_KEY (VArr (leads ++ [lead]))
             then (leads ++ [normalize lead])%list else leads in
  stored_leads st' =
  VArr (if accepts st2 BRAND_LEADS_KEY (VArr (mid ++ [legacy]))
        then (mid ++ [normalize legacy])%list else mid).
Proof.
  intros Hw Hs Hsub lead legacy st1 st2 mid.
  assert (H1 : stored_leads st1 = VArr mid).
  { unfold st1, mid. apply (stored_leads_appended leads lead st Hs).
    now apply wf_lead. }
  assert (H2 : stored_leads st2 = VArr mid).
  { rewrite <- H1. unfold stored_leads, st2. apply loadData_ext.
    apply getItem_logAdmin. discriminate. }
  unfold submit in Hsub. unfold stored_leads in Hs. rewrite Hs in Hsub.
  fold lead st1 in Hsub.
  destruct (logAdmin "brand_deck_request" _ ts st1) as [s2|s2] eqn:E; [|discriminate].
  simpl in st2. subst st2.
  change KEYS_BRAND_LEADS_LEGACY with BRAND_LEADS_KEY in Hsub.
  unfold stored_leads in H2. rewrite H2 in Hsub. injection Hsub as <-.
  apply (stored_leads_appended mid legacy s2 H2). now apply wf_legacy_lead.
Qed.

Lemma lead_entered_twice_witness :
  array_length
    (stored_leads
       (store_of (submit lead_form VNull 1767312000000 "2026-01-02T00:00:00.000Z"
                    "2026-01-02T00:00:00.001Z" "2026-01-02T00:00:00.002Z" empty_store)))
  = 2%nat.
Proof.
  rewrite (lead_entered_twice lead_form VNull 1767312000000 "2026-01-02T00:00:00.000Z"
             "2026-01-02T00:00:00.001Z" "2026-01-02T00:00:00.002Z" empty_store _ []);
    vm_compute; reflexivity.
Defined.

End Leads.
